(** * CV analysis service: field extraction, scoring and batch ranking

    A shallow embedding of [backend/python-api/cv_analysis.py].

    Modelling conventions.
    - A Python [str] is a list of 8-bit characters; texts are taken to be
      ASCII, so the character classes [\d], [\s], [\b] and [str.lower] are
      the ASCII ones.
    - Python numbers (the [int]s and [float]s of the scoring code) are exact
      rationals [Q]; [round(x, 2)] rounds half to even at two decimals.
    - [re.findall] is a backtracking matcher over a small pattern syntax
      that covers the four patterns of the source. *)

From Stdlib Require Import List Ascii String Bool Arith ZArith QArith Qround
  Qminmax.
From Stdlib Require Import Lia Permutation Sorted.
Import ListNotations.

Set Implicit Arguments.
Close Scope Q_scope.
Open Scope list_scope.

(** ** Strings *)

Definition str := list ascii.

Definition s2l (s : string) : str := list_ascii_of_string s.
Coercion s2l : string >-> str.

Definition ascii_in (lo hi c : ascii) : bool :=
  (nat_of_ascii lo <=? nat_of_ascii c) && (nat_of_ascii c <=? nat_of_ascii hi).

Definition is_digit (c : ascii) : bool := ascii_in "0" "9" c.
Definition is_upper (c : ascii) : bool := ascii_in "A" "Z" c.
Definition is_lower (c : ascii) : bool := ascii_in "a" "z" c.
Definition is_alpha (c : ascii) : bool := is_upper c || is_lower c.

(** [\s]: the ASCII characters for which [str.isspace] holds. *)
Definition is_space (c : ascii) : bool :=
  let n := nat_of_ascii c in
  ((9 <=? n) && (n <=? 13)) || ((28 <=? n) && (n <=? 32)).

(** [\w]: what [\b] looks at. *)
Definition is_word (c : ascii) : bool :=
  is_alpha c || is_digit c || Ascii.eqb c "_".

Definition one_of (s : string) (c : ascii) : bool :=
  existsb (Ascii.eqb c) (s2l s).

Definition lower_char (c : ascii) : ascii :=
  if is_upper c then ascii_of_nat (nat_of_ascii c + 32) else c.

Definition upper_char (c : ascii) : ascii :=
  if is_lower c then ascii_of_nat (nat_of_ascii c - 32) else c.

(** [s.lower()] and [s.upper()] *)
Definition lower (s : str) : str := map lower_char s.
Definition upper (s : str) : str := map upper_char s.

(** [s.title()]: a cased letter is upper-cased after an uncased character
    and lower-cased after a cased one. *)
Fixpoint title_from (prev_cased : bool) (s : str) : str :=
  match s with
  | [] => []
  | c :: s' =>
      (if prev_cased then lower_char c else upper_char c)
        :: title_from (is_alpha c) s'
  end.

Definition title (s : str) : str := title_from false s.

Definition str_eqb (a b : str) : bool :=
  if list_eq_dec ascii_dec a b then true else false.

Fixpoint starts_with (p s : str) : bool :=
  match p, s with
  | [], _ => true
  | _ :: _, [] => false
  | a :: p', b :: s' => Ascii.eqb a b && starts_with p' s'
  end.

(** [sub in s] on strings *)
Fixpoint contains (sub s : str) : bool :=
  starts_with sub s ||
  match s with
  | [] => false
  | _ :: s' => contains sub s'
  end.

(** [x in l] on a list of strings *)
Definition mem (x : str) (l : list str) : bool := existsb (str_eqb x) l.

(** [s.endswith(suffix)] *)
Definition endswith (s suffix : str) : bool :=
  starts_with (rev suffix) (rev s).

(** [int(s)] on a string of decimal digits *)
Definition digit_value (c : ascii) : Z := Z.of_nat (nat_of_ascii c - 48).

Definition int_of_digits (s : str) : Z :=
  fold_left (fun acc c => 10 * acc + digit_value c)%Z s 0%Z.

(** ** Patterns of the [re] module *)

Module Re.

(** The fragment of the pattern syntax that the source uses.  Repetition is
    greedy and is only ever applied to a character class. *)
Inductive regex : Type :=
| Chr (p : ascii -> bool)                         (* a class, one character *)
| Rep (p : ascii -> bool) (lo : nat) (hi : option nat)  (* p{lo,hi}, p+, p* *)
| Seq (r1 r2 : regex)
| Opt (r : regex)                                 (* r? *)
| Group (r : regex)                               (* ( r ), group 1 *)
| WordB.                                          (* \b *)

Definition Lit1 (c : ascii) : regex := Chr (Ascii.eqb c).

Fixpoint Lit (s : string) : regex :=
  match s with
  | EmptyString => Rep (fun _ => false) 0 (Some 0)
  | String c EmptyString => Lit1 c
  | String c s' => Seq (Lit1 c) (Lit s')
  end.

Fixpoint Seqs (rs : list regex) : regex :=
  match rs with
  | [] => Rep (fun _ => false) 0 (Some 0)
  | [r] => r
  | r :: rs' => Seq r (Seqs rs')
  end.

(** The state of a match attempt: the character before the cursor, the
    offset of the cursor from the start of the attempt, what is left of the
    text and the span of group 1 when it took part in the match. *)
Record cursor : Type := Cursor {
  prev : option ascii;
  pos : nat;
  rest : str;
  span : option (nat * nat)
}.

Definition advance (c : ascii) (s' : str) (k : cursor) : cursor :=
  Cursor (Some c) (S (pos k)) s' (span k).

Definition at_word_boundary (k : cursor) : bool :=
  let before := match prev k with Some c => is_word c | None => false end in
  let after := match rest k with c :: _ => is_word c | [] => false end in
  xorb before after.

Definition more_allowed (hi : option nat) : bool :=
  match hi with Some 0 => false | _ => true end.

Definition dec_hi (hi : option nat) : option nat :=
  match hi with Some n => Some (Nat.pred n) | None => None end.

Section Matcher.

Variable A : Type.

(** Greedy repetition of a class: take one more character when allowed, and
    fall back to stopping here once [lo] characters were taken. *)
Fixpoint rep (p : ascii -> bool) (lo : nat) (hi : option nat)
    (s : str) (k : cursor) (cont : cursor -> option A) {struct s} : option A :=
  let stop := match lo with
              | 0 => cont (Cursor (prev k) (pos k) s (span k))
              | S _ => None
              end in
  match s with
  | c :: s' =>
      if p c && more_allowed hi then
        match rep p (Nat.pred lo) (dec_hi hi) s' (advance c s' k) cont with
        | Some a => Some a
        | None => stop
        end
      else stop
  | [] => stop
  end.

(** Backtracking match of [r] at the cursor, then [cont]. *)
Fixpoint run (r : regex) (k : cursor) (cont : cursor -> option A) : option A :=
  match r with
  | Chr p =>
      match rest k with
      | c :: s' => if p c then cont (advance c s' k) else None
      | [] => None
      end
  | Rep p lo hi => rep p lo hi (rest k) k cont
  | Seq r1 r2 => run r1 k (fun k1 => run r2 k1 cont)
  | Opt r1 =>
      match run r1 k cont with
      | Some a => Some a
      | None => cont k
      end
  | Group r1 =>
      run r1 k (fun k1 =>
        cont (Cursor (prev k1) (pos k1) (rest k1) (Some (pos k, pos k1))))
  | WordB => if at_word_boundary k then cont k else None
  end.

End Matcher.

(** One match object: the text of the whole match and of group 1. *)
Record match_obj : Type := Match {
  whole : str;
  group1 : option str
}.

Definition slice (s : str) (b e : nat) : str := firstn (e - b) (skipn b s).

(** [pattern.match] at a given place, as spans: the end of the match and the
    span of group 1 when it took part. *)
Definition match_span (r : regex) (before : option ascii) (s : str)
  : option (nat * option (nat * nat)) :=
  run r (Cursor before 0 s None) (fun k => Some (pos k, span k)).

Definition match_of_span (s : str) (sp : nat * option (nat * nat))
  : nat * match_obj :=
  (fst sp,
   Match (firstn (fst sp) s)
         (match snd sp with
          | Some (b, e) => Some (slice s b e)
          | None => None
          end)).

(** The length of the match and the match object. *)
Definition match_at (r : regex) (before : option ascii) (s : str)
  : option (nat * match_obj) :=
  option_map (match_of_span s) (match_span r before s).

(** The scan of [finditer]: [skip] characters of the previous match are
    still to be passed over.  No pattern of the source matches the empty
    string; after an empty match the scan moves on by one character. *)
Fixpoint scan (r : regex) (before : option ascii) (s : str) (skip : nat)
  : list match_obj :=
  match skip with
  | S n =>
      match s with
      | [] => []
      | c :: s' => scan r (Some c) s' n
      end
  | 0 =>
      match match_at r before s with
      | Some (len, m) =>
          m :: match s with
               | [] => []
               | c :: s' => scan r (Some c) s' (Nat.pred len)
               end
      | None =>
          match s with
          | [] => []
          | c :: s' => scan r (Some c) s' 0
          end
      end
  end.

Definition finditer (r : regex) (s : str) : list match_obj := scan r None s 0.

(** [re.findall] for a pattern without groups: the matched texts. *)
Definition findall0 (r : regex) (s : str) : list str :=
  map whole (finditer r s).

(** The text of group 1, the empty string where the group took no part in
    the match. *)
Definition group_text (m : match_obj) : str :=
  match group1 m with
  | Some g => g
  | None => []
  end.

(** [re.findall] for a pattern with one group: the texts of the group. *)
Definition findall1 (r : regex) (s : str) : list str :=
  map group_text (finditer r s).

(** [re.search]: the leftmost place where the pattern matches. *)
Fixpoint search (r : regex) (before : option ascii) (s : str)
  : option match_obj :=
  match match_at r before s with
  | Some (_, m) => Some m
  | None =>
      match s with
      | [] => None
      | c :: s' => search r (Some c) s'
      end
  end.

End Re.

Import Re.

(** ** Field extraction: [CVAnalyzer] *)

Definition sep_class (c : ascii) : bool := one_of "-." c || is_space c.

(** [\b[A-Za-z0-9._%+-]+@[A-Za-z0-9.-]+\.[A-Z|a-z]{2,}\b] *)
Definition email_pattern : regex :=
  Seqs [ WordB;
         Rep (fun c => is_alpha c || is_digit c || one_of "._%+-" c) 1 None;
         Lit1 "@";
         Rep (fun c => is_alpha c || is_digit c || one_of ".-" c) 1 None;
         Lit1 ".";
         Rep (fun c => is_upper c || Ascii.eqb c "|" || is_lower c) 2 None;
         WordB ].

(** [(\+?\d{1,3}[-.\s]?)?\(?\d{3}\)?[-.\s]?\d{3}[-.\s]?\d{4}] *)
Definition phone_pattern : regex :=
  Seqs [ Opt (Group (Seqs [ Opt (Lit1 "+");
                            Rep is_digit 1 (Some 3);
                            Opt (Chr sep_class) ]));
         Opt (Lit1 "(");
         Rep is_digit 3 (Some 3);
         Opt (Lit1 ")");
         Opt (Chr sep_class);
         Rep is_digit 3 (Some 3);
         Opt (Chr sep_class);
         Rep is_digit 4 (Some 4) ].

(** [matches[0] if matches else None] *)
Definition first_or_none (matches : list str) : option str :=
  match matches with
  | m :: _ => Some m
  | [] => None
  end.

Definition extract_email (text : str) : option str :=
  first_or_none (findall0 email_pattern text).

Definition extract_phone (text : str) : option str :=
  first_or_none (findall1 phone_pattern text).

Definition skill_keywords : list str :=
  map s2l
  [ "python"; "javascript"; "typescript"; "java"; "c++"; "react"; "nodejs";
    "angular"; "vue"; "django"; "flask"; "fastapi"; "sql"; "postgresql";
    "mongodb"; "redis"; "docker"; "kubernetes"; "aws"; "azure"; "gcp";
    "machine learning"; "ai"; "data science"; "deep learning"; "nlp";
    "git"; "agile"; "scrum"; "jenkins"; "ci/cd"; "microservices" ]%string.

(** [list(set(found_skills))]: the keywords are pairwise distinct, so the
    set only fixes an order, which Python leaves open; the model keeps the
    order of the keyword list, and the scores do not depend on it
    (see [calculate_overall_score_skill_order]). *)
Definition extract_skills (text : str) : list str :=
  let text_lower := lower text in
  map title (filter (fun skill => contains skill text_lower) skill_keywords).

(** [(\d+)\+?\s*years?\s+(?:of\s+)?experience],
    [experience[:\s]+(\d+)\+?\s*years?] and [(\d+)\+?\s*years?\s+in] *)
Definition experience_patterns : list regex :=
  [ Seqs [ Group (Rep is_digit 1 None); Opt (Lit1 "+"); Rep is_space 0 None;
           Lit "year"; Opt (Lit1 "s"); Rep is_space 1 None;
           Opt (Seq (Lit "of") (Rep is_space 1 None)); Lit "experience" ];
    Seqs [ Lit "experience";
           Rep (fun c => Ascii.eqb c ":" || is_space c) 1 None;
           Group (Rep is_digit 1 None); Opt (Lit1 "+"); Rep is_space 0 None;
           Lit "year"; Opt (Lit1 "s") ];
    Seqs [ Group (Rep is_digit 1 None); Opt (Lit1 "+"); Rep is_space 0 None;
           Lit "year"; Opt (Lit1 "s"); Rep is_space 1 None; Lit "in" ] ].

(** The loop over the patterns: the first one with a match decides. *)
Fixpoint first_experience (patterns : list regex) (text_lower : str) : Z :=
  match patterns with
  | [] => 0
  | pattern :: patterns' =>
      match findall1 pattern text_lower with
      | m :: _ => int_of_digits m
      | [] => first_experience patterns' text_lower
      end
  end.

Definition extract_experience_years (text : str) : Z :=
  first_experience experience_patterns (lower text).

Definition degrees : list str :=
  map s2l [ "phd"; "master"; "bachelor"; "mba"; "msc"; "bsc"; "ba"; "ma" ]%string.

Definition extract_education (text : str) : list str :=
  let text_lower := lower text in
  map upper (filter (fun degree => contains degree text_lower) degrees).

(** ** Numbers *)

Open Scope Q_scope.

(** Rounding to the nearest integer, ties to the even one. *)
Definition round_half_even (x : Q) : Z :=
  let f := Qfloor x in
  match Qcompare (x - inject_Z f) (1 # 2) with
  | Lt => f
  | Gt => (f + 1)%Z
  | Eq => if Z.even f then f else (f + 1)%Z
  end.

(** [round(x, 2)] *)
Definition py_round2 (x : Q) : Q := round_half_even (x * 100) # 100.

(** [sum(values)] *)
Definition py_sum (values : list Q) : Q := fold_left Qplus values 0.

(** ** Scoring: [CVAnalyzer] *)

Definition calculate_skill_match_score
    (candidate_skills required_skills : list str) : Q :=
  match required_skills with
  | [] => 100
  | _ :: _ =>
      let candidate_skills_lower := map lower candidate_skills in
      let required_skills_lower := map lower required_skills in
      let matches :=
        List.length (filter (fun skill => mem skill candidate_skills_lower)
                       required_skills_lower) in
      let score :=
        inject_Z (Z.of_nat matches)
          / inject_Z (Z.of_nat (List.length required_skills_lower)) * 100 in
      py_round2 score
  end.

(** The dictionary [cv_data] that [analyze_cv] builds. *)
Record cv_data : Type := CvData {
  email : option str;
  phone : option str;
  skills : list str;
  experience_years : Z;
  education : list str
}.

(** The dictionary [job_requirements]. *)
Record job_requirements : Type := JobRequirements {
  required_skills : list str;
  min_experience_years : Z;
  required_education : str
}.

Record breakdown_t : Type := Breakdown {
  skills_match : Q;
  experience_match : Q;
  education_match : Q;
  cv_completeness : Q
}.

Record score_t : Type := Score {
  overall_score : Q;
  breakdown : breakdown_t;
  recommendation : str
}.

(** Truth value of an optional string: [None] and [''] are false. *)
Definition truthy (o : option str) : bool :=
  match o with
  | Some (_ :: _) => true
  | _ => false
  end.

Definition nonempty (A : Type) (l : list A) : bool :=
  match l with
  | [] => false
  | _ :: _ => true
  end.

Definition _get_recommendation (score : Q) : str :=
  if Qle_bool 80 score then
    s2l "Strong Match - Highly Recommended for Interview"
  else if Qle_bool 65 score then
    s2l "Good Match - Recommended for Interview"
  else if Qle_bool 50 score then
    s2l "Moderate Match - Consider for Interview"
  else
    s2l "Weak Match - Not Recommended".

(** The four scores of [calculate_overall_score], under the names of its
    local variables; each is a function of what the source computes it
    from. *)
Definition skills_score (cv : cv_data) (job : job_requirements) : Q :=
  calculate_skill_match_score (skills cv) (required_skills job).

Definition exp_score (candidate_exp required_exp : Z) : Q :=
  if (candidate_exp >=? required_exp)%Z then
    Qmin 100 (inject_Z candidate_exp / inject_Z (Z.max required_exp 1) * 100)
  else
    inject_Z candidate_exp / inject_Z (Z.max required_exp 1) * 70.

Definition edu_score (required_education : str) (candidate_edu : list str)
  : Q :=
  let required_edu := lower required_education in
  if contains (s2l "phd") required_edu && mem (s2l "PHD") candidate_edu then
    100
  else if contains (s2l "master") required_edu
          && existsb (fun d => mem d candidate_edu)
               (map s2l ["MASTER"; "MBA"; "MSC"; "MA"]%string) then
    100
  else if contains (s2l "bachelor") required_edu
          && existsb (fun d => mem d candidate_edu)
               (map s2l ["BACHELOR"; "BSC"; "BA"]%string) then
    100
  else if nonempty candidate_edu then
    80
  else
    0.

Definition completeness (cv : cv_data) : Q :=
  let c0 := 0 in
  let c1 := if truthy (email cv) then c0 + 25 else c0 in
  let c2 := if truthy (phone cv) then c1 + 25 else c1 in
  let c3 := if nonempty (skills cv) then c2 + 25 else c2 in
  if (experience_years cv >? 0)%Z then c3 + 25 else c3.

(** The dictionary [scores], in insertion order. *)
Definition scores (cv : cv_data) (job : job_requirements)
  : list (string * Q) :=
  [ ("skills"%string, skills_score cv job * 0.4);
    ("experience"%string,
     exp_score (experience_years cv) (min_experience_years job) * 0.3);
    ("education"%string,
     edu_score (required_education job) (education cv) * 0.2);
    ("completeness"%string, completeness cv * 0.1) ].

Definition total_score (cv : cv_data) (job : job_requirements) : Q :=
  py_sum (map snd (scores cv job)).

Definition calculate_overall_score (cv : cv_data) (job : job_requirements)
  : score_t :=
  {| overall_score := py_round2 (total_score cv job);
     breakdown :=
       {| skills_match := py_round2 (skills_score cv job);
          experience_match :=
            py_round2 (exp_score (experience_years cv)
                                 (min_experience_years job));
          education_match :=
            py_round2 (edu_score (required_education job) (education cv));
          cv_completeness := py_round2 (completeness cv) |};
     recommendation := _get_recommendation (total_score cv job) |}.

(** ** The endpoints [analyze_cv] and [batch_analyze_cvs] *)

Record http_exception : Type := HTTPException {
  status_code : Z;
  detail : str
}.

(** A call that returns or raises. *)
Inductive outcome (A : Type) : Type :=
| Return (a : A)
| Raise (e : http_exception).

Arguments Return {A} a.
Arguments Raise {A} e.

Record upload_file : Type := UploadFile {
  filename : str;
  content : list ascii
}.

(** The dictionary that [analyze_cv] returns. *)
Record analysis : Type := Analysis {
  candidate_info : cv_data;
  score : score_t;
  analysis_filename : str
}.

(** An entry of [results] in [batch_analyze_cvs]: an analysis (it has the
    key ['score']) or a failure (it has the key ['error']). *)
Inductive batch_entry : Type :=
| Analyzed (a : analysis)
| Failed (failed_filename : str) (error : str).

Record batch_result : Type := BatchResult {
  total_candidates : nat;
  successfully_analyzed : nat;
  ranked_candidates : list analysis;
  errors : list batch_entry
}.

Definition has_score (r : batch_entry) : bool :=
  match r with Analyzed _ => true | Failed _ _ => false end.

Definition has_error (r : batch_entry) : bool :=
  match r with Analyzed _ => false | Failed _ _ => true end.

(** [[r for r in results if 'score' in r]] *)
Fixpoint valid_results (results : list batch_entry) : list analysis :=
  match results with
  | [] => []
  | Analyzed a :: results' => a :: valid_results results'
  | Failed _ _ :: results' => valid_results results'
  end.

Definition sort_key (a : analysis) : Q := overall_score (score a).

(** [list.sort(key=..., reverse=True)]: a stable sort, greatest key first;
    of two entries with equal keys the one that came first stays first. *)
Fixpoint insert_desc (a : analysis) (l : list analysis) : list analysis :=
  match l with
  | [] => [a]
  | b :: l' =>
      if Qle_bool (sort_key b) (sort_key a) then a :: l
      else b :: insert_desc a l'
  end.

Definition sort_desc (l : list analysis) : list analysis :=
  fold_right insert_desc [] l.

(** The part of [analyze_cv] that follows the extraction of the text. *)
Definition analyze_text (text : str) (required_skills : option (list str))
    (min_experience_years : Z) (required_education : str)
  : cv_data * score_t :=
  let cv :=
    {| email := extract_email text;
       phone := extract_phone text;
       skills := extract_skills text;
       experience_years := extract_experience_years text;
       education := extract_education text |} in
  let job :=
    {| required_skills := match required_skills with
                          | Some l => l
                          | None => []
                          end;
       min_experience_years := min_experience_years;
       required_education := required_education |} in
  (cv, calculate_overall_score cv job).

Section Endpoints.

(** What the repository takes from outside: the text of the pages of a PDF
    as [PyPDF2] reads it (or the message of the exception it raises), the
    UTF-8 decoder with [errors='ignore'], and the text of an exception. *)
Variable pdf_pages_text : list ascii -> str + str.
Variable decode_utf8_ignore : list ascii -> str.
Variable exception_text : http_exception -> str.

Definition extract_text_from_pdf (file_content : list ascii) : outcome str :=
  match pdf_pages_text file_content with
  | inl text => Return text
  | inr message =>
      Raise (HTTPException 400 (s2l "PDF extraction failed: " ++ message))
  end.

Definition analyze_cv (file : upload_file) (required_skills : option (list str))
    (min_experience_years : Z) (required_education : str) : outcome analysis :=
  let text :=
    if endswith (filename file) (s2l ".pdf") then
      extract_text_from_pdf (content file)
    else if existsb (endswith (filename file))
              (map s2l [".txt"; ".doc"; ".docx"]%string) then
      Return (decode_utf8_ignore (content file))
    else
      Raise (HTTPException 400 (s2l "Unsupported file format")) in
  match text with
  | Raise e => Raise e
  | Return text =>
      let '(cv, sc) :=
        analyze_text text required_skills min_experience_years
                     required_education in
      Return {| candidate_info := cv;
                score := sc;
                analysis_filename := filename file |}
  end.

(** The loop of [batch_analyze_cvs]: one entry per file, in order. *)
Definition batch_results (files : list upload_file)
    (required_skills : option (list str)) (min_experience_years : Z)
    (required_education : str) : list batch_entry :=
  map (fun file =>
         match analyze_cv file required_skills min_experience_years
                          required_education with
         | Return result => Analyzed result
         | Raise e => Failed (filename file) (exception_text e)
         end)
      files.

Definition batch_analyze_cvs (files : list upload_file)
    (required_skills : option (list str)) (min_experience_years : Z)
    (required_education : str) : batch_result :=
  let results :=
    batch_results files required_skills min_experience_years
                  required_education in
  let valid := sort_desc (valid_results results) in
  {| total_candidates := List.length files;
     successfully_analyzed := List.length valid;
     ranked_candidates := valid;
     errors := filter has_error results |}.

End Endpoints.

Close Scope Q_scope.

(** * Vocabulary of the properties *)

(** ** Substrings and matches *)

(** [sub] occurs in [s]. *)
Definition substring (sub s : str) : Prop :=
  exists before after, s = before ++ sub ++ after.

(** The character before offset [n] of a text that follows [before]. *)
Definition before_offset (before : option ascii) (s : str) (n : nat)
  : option ascii :=
  match n with
  | 0 => before
  | S m => nth_error s m
  end.

(** An attempt to match at offset [n] of [s]. *)
Definition match_at_offset (r : regex) (before : option ascii) (s : str)
    (n : nat) : option (nat * match_obj) :=
  match_at r (before_offset before s n) (skipn n s).

(** The pattern matches nowhere in the text. *)
Definition matches_nowhere (r : regex) (before : option ascii) (s : str)
  : Prop :=
  forall n, n <= List.length s -> match_at_offset r before s n = None.

(** [m] is the first match of the pattern in the text: the match at the
    least offset where the pattern matches. *)
Definition first_match (r : regex) (before : option ascii) (s : str)
    (m : match_obj) : Prop :=
  exists n len,
    n <= List.length s /\
    match_at_offset r before s n = Some (len, m) /\
    forall n', n' < n -> match_at_offset r before s n' = None.

(** ** Patterns that only look at the class of a character *)

Section ClassVocabulary.

Variable K : Type.
Variable class_of : ascii -> K.

Definition same_class (a b : ascii) : Prop := class_of a = class_of b.

Definition respects (p : ascii -> bool) : Prop :=
  forall a b, same_class a b -> p a = p b.

Fixpoint class_regex (r : regex) : Prop :=
  match r with
  | Chr p | Rep p _ _ => respects p
  | Seq r1 r2 => class_regex r1 /\ class_regex r2
  | Opt r1 | Group r1 => class_regex r1
  | WordB => False
  end.

Definition cursor_sim (k k' : cursor) : Prop :=
  pos k = pos k' /\ span k = span k' /\ Forall2 same_class (rest k) (rest k').

End ClassVocabulary.

(** ** Phone numbers *)

(** What the phone pattern can tell about a character. *)
Inductive phone_class : Type :=
| PDigit | PPlus | PLparen | PRparen | PSep | POther.

Definition phone_class_of (c : ascii) : phone_class :=
  if is_digit c then PDigit
  else if Ascii.eqb c "+" then PPlus
  else if Ascii.eqb c "(" then PLparen
  else if Ascii.eqb c ")" then PRparen
  else if sep_class c then PSep
  else POther.

Definition phone_class_char (k : phone_class) : ascii :=
  match k with
  | PDigit => "0"
  | PPlus => "+"
  | PLparen => "("
  | PRparen => ")"
  | PSep => "-"
  | POther => "x"
  end.

(** The character that stands for the class of [c]. *)
Definition canon_char (c : ascii) : ascii :=
  phone_class_char (phone_class_of c).

(** The text that follows a number, its first character replaced by the
    one that stands for its class. *)
Definition canon_tail (post : str) : str :=
  match post with
  | [] => []
  | c :: post' => canon_char c :: post'
  end.

(** A number in the 3-3-4 grouping with no country code: an optional
    parenthesis on either side of the first three digits and an optional
    separator before each of the two other groups. *)
Definition optional (p : ascii -> bool) (s : str) : Prop :=
  s = [] \/ exists c, s = [c] /\ p c = true.

Definition digits (n : nat) (s : str) : Prop :=
  List.length s = n /\ Forall (fun c => is_digit c = true) s.

Definition local_number (body : str) : Prop :=
  exists lp area rp sep1 mid sep2 last,
    body = lp ++ area ++ rp ++ sep1 ++ mid ++ sep2 ++ last /\
    optional (Ascii.eqb "(") lp /\ digits 3 area /\
    optional (Ascii.eqb ")") rp /\
    optional sep_class sep1 /\ digits 3 mid /\
    optional sep_class sep2 /\ digits 4 last.

(** The text goes on with something else than a digit. *)
Definition no_digit_next (post : str) : Prop :=
  match post with
  | [] => True
  | c :: _ => is_digit c = false
  end.

(** ** Groups of digits *)

(** Every group of the pattern is a run of one digit or more. *)
Fixpoint digit_groups (r : regex) : Prop :=
  match r with
  | Group r1 => exists lo hi, r1 = Rep is_digit (S lo) hi
  | Seq r1 r2 => digit_groups r1 /\ digit_groups r2
  | Opt r1 => digit_groups r1
  | _ => True
  end.

(** The pattern cannot match without going through a group. *)
Fixpoint sets_group (r : regex) : bool :=
  match r with
  | Group _ => true
  | Seq r1 r2 => sets_group r1 || sets_group r2
  | _ => false
  end.

(** What [int] accepts from the patterns: one digit or more. *)
Definition digit_string (ds : str) : Prop :=
  ds <> [] /\ Forall (fun c => is_digit c = true) ds.

(** The cursor is at its offset in [s0], and the span of group 1, when
    there is one, is a run of digits of [s0]. *)
Definition cursor_ok (s0 : str) (k : cursor) : Prop :=
  rest k = skipn (pos k) s0 /\
  match span k with
  | Some (b, e) => digit_string (slice s0 b e)
  | None => True
  end.

(** ** Scores and examples *)

(** Points that [completeness] gives for one field. *)
Definition points (present : bool) : Q := if present then 25%Q else 0%Q.

Definition example_text : str :=
  s2l "Contact: a@b.com, phone 555-123-4567. 5 years experience in Python and React. Bachelor degree.".

Definition example_analysis : cv_data * score_t :=
  analyze_text example_text
    (Some [s2l "python"; s2l "react"; s2l "docker"]) 3 (s2l "bachelor").

Definition example_cv : cv_data := fst example_analysis.

Definition example_job : job_requirements :=
  {| required_skills := [s2l "python"; s2l "react"; s2l "docker"];
     min_experience_years := 3;
     required_education := s2l "bachelor" |}.

Definition strong_match : str :=
  s2l "Strong Match - Highly Recommended for Interview".
Definition good_match : str := s2l "Good Match - Recommended for Interview".
Definition moderate_match : str :=
  s2l "Moderate Match - Consider for Interview".
Definition weak_match : str := s2l "Weak Match - Not Recommended".

(** A required skill is present when some skill of the candidate is equal
    to it up to letter case. *)
Definition skill_present (candidate_skills : list str) (skill : str) : bool :=
  existsb (fun c => str_eqb (lower skill) (lower c)) candidate_skills.


(** ** Ranking *)



Section BatchVocabulary.

Variable pdf_pages_text : list ascii -> str + str.
Variable decode_utf8_ignore : list ascii -> str.
Variable exception_text : http_exception -> str.
Variable skills_wanted : option (list str).
Variable years_wanted : Z.
Variable education_wanted : str.



End BatchVocabulary.

(** A batch of four files: the second is not a PDF that can be read, the
    first and the last hold the same text. *)
Definition example_files : list upload_file :=
  [ UploadFile (s2l "a.txt") (s2l "a@b.com 2 years experience in react");
    UploadFile (s2l "b.pdf") (s2l "junk");
    UploadFile (s2l "c.txt") (s2l "c@d.org 9 years experience in python");
    UploadFile (s2l "d.txt") (s2l "a@b.com 2 years experience in react") ].

Definition example_batch : batch_result :=
  batch_analyze_cvs
    (fun _ => inr (s2l "EOF marker not found"))
    (fun bytes => bytes)
    (fun e => s2l "400: " ++ detail e)
    example_files (Some [s2l "python"]) 3 (s2l "bachelor").

(** ** The texts that a pattern matches *)

(** [lang r w]: the pattern [r] can take the text [w] (word boundaries
    apart). *)
Inductive lang : regex -> str -> Prop :=
| lang_chr (p : ascii -> bool) (c : ascii) :
    p c = true -> lang (Chr p) [c]
| lang_rep (p : ascii -> bool) (lo : nat) (hi : option nat) (w : str) :
    lo <= List.length w ->
    (forall h, hi = Some h -> List.length w <= h) ->
    Forall (fun c => p c = true) w ->
    lang (Rep p lo hi) w
| lang_seq (r1 r2 : regex) (w1 w2 : str) :
    lang r1 w1 -> lang r2 w2 -> lang (Seq r1 r2) (w1 ++ w2)
| lang_opt_none (r : regex) : lang (Opt r) []
| lang_opt_some (r : regex) (w : str) : lang r w -> lang (Opt r) w
| lang_group (r : regex) (w : str) : lang r w -> lang (Group r) w
| lang_wordb : lang WordB [].

(** The patterns that can set group 1. *)
Fixpoint groups (r : regex) : list regex :=
  match r with
  | Group r1 => [r1]
  | Seq r1 r2 => groups r1 ++ groups r2
  | Opt r1 => groups r1
  | _ => []
  end.

(** The span of group 1 is as it was, or it delimits a text of one of the
    groups. *)
Definition span_from (s0 : str) (r : regex) (before after : option (nat * nat))
  : Prop :=
  after = before \/
  exists body b e,
    In body (groups r) /\ after = Some (b, e) /\ lang body (slice s0 b e).

(** The three character classes of the email pattern. *)
Definition email_user_char (c : ascii) : bool :=
  is_alpha c || is_digit c || one_of "._%+-" c.

Definition email_domain_char (c : ascii) : bool :=
  is_alpha c || is_digit c || one_of ".-" c.

Definition email_tld_char (c : ascii) : bool :=
  is_upper c || Ascii.eqb c "|" || is_lower c.

(** The form of an address that the email pattern takes. *)
Definition email_form (e : str) : Prop :=
  exists user domain tld,
    e = user ++ s2l "@" ++ domain ++ s2l "." ++ tld /\
    user <> [] /\ Forall (fun c => email_user_char c = true) user /\
    domain <> [] /\ Forall (fun c => email_domain_char c = true) domain /\
    2 <= List.length tld /\ Forall (fun c => email_tld_char c = true) tld.

(** The form of a country code as the phone pattern takes it: an optional
    ['+'], one to three digits, an optional separator. *)
Definition country_code_form (p : str) : Prop :=
  exists plus ds sep,
    p = plus ++ ds ++ sep /\
    optional (Ascii.eqb "+") plus /\
    1 <= List.length ds <= 3 /\ Forall (fun c => is_digit c = true) ds /\
    optional sep_class sep.

(** [p] is a text of the group of the phone pattern. *)
Definition In_groups_phone (p : str) : Prop :=
  exists body, In body (groups phone_pattern) /\ lang body p.

(** How many characters of [s] are in the class [p]. *)
Definition count (p : ascii -> bool) (s : str) : nat :=
  List.length (filter p s).

(** No string of the list occurs twice. *)
Fixpoint nodup_check (l : list str) : bool :=
  match l with
  | [] => true
  | a :: l' => negb (mem a l') && nodup_check l'
  end.

(** The required skill [q] is one of the keywords, letter case apart, and
    occurs in the lower-cased text. *)
Definition keyword_in (text q : str) : bool :=
  mem (lower q) skill_keywords && contains (lower q) (lower text).

(** The value under ['filename'] of an entry of the results. *)
Definition entry_filename (r : batch_entry) : str :=
  match r with
  | Analyzed a => analysis_filename a
  | Failed failed_filename _ => failed_filename
  end.

Definition unsupported_format : http_exception :=
  HTTPException 400 (s2l "Unsupported file format").

(** The cursor after the characters [w] were taken from [w ++ s']. *)
Fixpoint taken (w s' : str) (k : cursor) : cursor :=
  match w with
  | [] => Cursor (prev k) (pos k) s' (span k)
  | c :: w' => taken w' s' (advance c (w' ++ s') k)
  end.

(** The class [p] has no character at the start of [s]. *)
Definition stops (p : ascii -> bool) (s : str) : bool :=
  match s with
  | [] => true
  | c :: _ => negb (p c)
  end.





(** The pattern has no [\b]. *)
Fixpoint no_wordb (r : regex) : bool :=
  match r with
  | Chr _ | Rep _ _ _ => true
  | Seq r1 r2 => no_wordb r1 && no_wordb r2
  | Opt r1 | Group r1 => no_wordb r1
  | WordB => false
  end.

(** What the first experience pattern has after the digits:
    [\+?\s*years?\s+(?:of\s+)?experience] *)
Definition experience_phrase : regex :=
  Seqs [ Opt (Lit1 "+"); Rep is_space 0 None;
         Lit "year"; Opt (Lit1 "s"); Rep is_space 1 None;
         Opt (Seq (Lit "of") (Rep is_space 1 None)); Lit "experience" ].

(** * Properties *)

(** ** Strings and lists *)

Lemma str_eqb_eq (a b : str) : str_eqb a b = true <-> a = b.
Proof.
  unfold str_eqb. destruct (list_eq_dec ascii_dec a b); split; congruence.
Qed.

Lemma mem_In (x : str) (l : list str) : mem x l = true <-> In x l.
Proof.
  unfold mem. rewrite existsb_exists. split.
  - intros (y & Hy & E). apply str_eqb_eq in E. now subst.
  - intros H. exists x. split; [assumption | now apply str_eqb_eq].
Qed.

Lemma starts_with_prefix (p s : str) :
  starts_with p s = true <-> exists after, s = p ++ after.
Proof.
  revert s. induction p as [|a p IH]; intros s; simpl.
  - split; [intros _; now exists s | trivial].
  - destruct s as [|b s].
    + split; [discriminate | intros (t & E); discriminate].
    + rewrite andb_true_iff, Ascii.eqb_eq, IH. split.
      * intros (-> & t & ->). now exists t.
      * intros (t & E). injection E as -> ->. split; [reflexivity | now exists t].
Qed.

Lemma contains_substring (sub s : str) :
  contains sub s = true <-> substring sub s.
Proof.
  unfold substring. induction s as [|c s IH].
  - simpl. rewrite orb_false_r, starts_with_prefix. split.
    + intros (t & E). now exists [], t.
    + intros (b & t & E). destruct b; [now exists t | discriminate].
  - cbn [contains]. rewrite orb_true_iff, starts_with_prefix, IH. split.
    + intros [(t & E) | (b & t & E)].
      * now exists [], t.
      * exists (c :: b), t. simpl. now rewrite E.
    + intros (b & t & E). destruct b as [|c' b].
      * left. now exists t.
      * right. injection E as -> ->. now exists b, t.
Qed.

(** ** The scan of a pattern *)

Lemma scan_head_search (r : regex) (s : str) (before : option ascii) :
  hd_error (scan r before s 0) = search r before s.
Proof.
  revert before. induction s as [|c s IH]; intros before; simpl;
    destruct (match_at r before _) as [[len m]|]; simpl; auto.
Qed.

Lemma first_or_none_map (A : Type) (f : A -> str) (l : list A) :
  first_or_none (map f l) = option_map f (hd_error l).
Proof. now destruct l. Qed.

Lemma findall1_first (r : regex) (s : str) :
  first_or_none (findall1 r s) = option_map group_text (search r None s).
Proof.
  unfold findall1, finditer. rewrite first_or_none_map.
  now rewrite scan_head_search.
Qed.

Lemma findall0_first (r : regex) (s : str) :
  first_or_none (findall0 r s) = option_map whole (search r None s).
Proof.
  unfold findall0, finditer. rewrite first_or_none_map.
  now rewrite scan_head_search.
Qed.

Lemma search_unfold (r : regex) (before : option ascii) (s : str) :
  search r before s =
  match match_at r before s with
  | Some (_, m) => Some m
  | None =>
      match s with
      | [] => None
      | c :: s' => search r (Some c) s'
      end
  end.
Proof. destruct s; reflexivity. Qed.

Lemma match_at_offset_S (r : regex) (before : option ascii) (c : ascii)
    (s : str) (n : nat) :
  match_at_offset r before (c :: s) (S n) = match_at_offset r (Some c) s n.
Proof. unfold match_at_offset. now destruct n. Qed.

Lemma search_first_match (r : regex) (s : str) :
  forall before m,
  search r before s = Some m -> first_match r before s m.
Proof.
  induction s as [|c s IH]; intros before m; rewrite search_unfold;
    destruct (match_at r before _) as [[len m']|] eqn:E.
  - intros [= <-]. exists 0, len. repeat split; [lia | exact E | lia].
  - discriminate.
  - intros [= <-]. exists 0, len. repeat split; [lia | exact E | lia].
  - intros H. destruct (IH _ _ H) as (n & len & Hn & Hm & Hmin).
    exists (S n), len. repeat split.
    + simpl. lia.
    + now rewrite match_at_offset_S.
    + intros [|n'] Hn'; [exact E|].
      rewrite match_at_offset_S. apply Hmin. lia.
Qed.

Lemma search_nowhere (r : regex) (s : str) :
  forall before, search r before s = None -> matches_nowhere r before s.
Proof.
  induction s as [|c s IH]; intros before; rewrite search_unfold;
    destruct (match_at r before _) as [[len m']|] eqn:E; try discriminate.
  - intros _ [|n] Hn; [exact E | simpl in Hn; lia].
  - intros H [|n] Hn; [exact E|].
    rewrite match_at_offset_S. apply (IH _ H). simpl in Hn. lia.
Qed.

(** The first match is unique. *)
Lemma first_match_unique (r : regex) (before : option ascii) (s : str)
    (m m' : match_obj) :
  first_match r before s m -> first_match r before s m' -> m = m'.
Proof.
  intros (n & len & _ & Hm & Hmin) (n' & len' & _ & Hm' & Hmin').
  destruct (Nat.lt_trichotomy n n') as [L | [-> | L]].
  - rewrite (Hmin' n L) in Hm. discriminate.
  - congruence.
  - rewrite (Hmin n' L) in Hm'. discriminate.
Qed.

Lemma first_match_not_nowhere (r : regex) (before : option ascii) (s : str)
    (m : match_obj) :
  first_match r before s m -> ~ matches_nowhere r before s.
Proof.
  intros (n & len & Hn & Hm & _) H. rewrite (H n Hn) in Hm. discriminate.
Qed.

(** Offsets at which the pattern does not match can be passed over. *)
Lemma search_skip (r : regex) (pre s : str) :
  forall before,
  (forall n, n < List.length pre ->
             match_at_offset r before (pre ++ s) n = None) ->
  search r before (pre ++ s)
  = search r (before_offset before (pre ++ s) (List.length pre)) s.
Proof.
  induction pre as [|c pre IH]; intros before H; [reflexivity|].
  cbn [app]. rewrite search_unfold.
  pose proof (H 0 (Nat.lt_0_succ _)) as H0.
  unfold match_at_offset in H0. simpl in H0. rewrite H0.
  rewrite IH.
  - f_equal. simpl. now destruct (List.length pre).
  - intros n Hn. rewrite <- (@match_at_offset_S r before c (pre ++ s) n).
    apply H. simpl. lia.
Qed.

(** ** Patterns that only look at the class of a character *)

Section Classes.

Variable K : Type.
Variable class_of : ascii -> K.

Lemma rep_sim (A : Type) (p : ascii -> bool) (cont cont' : cursor -> option A) :
  respects class_of p ->
  (forall k1 k1', cursor_sim class_of k1 k1' -> cont k1 = cont' k1') ->
  forall s s', Forall2 (same_class class_of) s s' ->
  forall lo hi k k', pos k = pos k' -> span k = span k' ->
  rep p lo hi s k cont = rep p lo hi s' k' cont'.
Proof.
  intros Hp Hcont s s' Hs.
  induction Hs as [|c c' s s' Hc Hs IH]; intros lo hi k k' Hpos Hspan.
  - simpl. destruct lo; [|reflexivity].
    apply Hcont. repeat split; simpl; auto.
  - cbn [rep]. rewrite (Hp c c' Hc).
    assert (Hstop :
      match lo with
      | 0 => cont (Cursor (prev k) (pos k) (c :: s) (span k))
      | S _ => None
      end =
      match lo with
      | 0 => cont' (Cursor (prev k') (pos k') (c' :: s') (span k'))
      | S _ => None
      end).
    { destruct lo; [|reflexivity].
      apply Hcont. repeat split; simpl; auto. }
    destruct (p c' && more_allowed hi); [|exact Hstop].
    rewrite (IH (Nat.pred lo) (dec_hi hi) (advance c s k) (advance c' s' k'));
      [| simpl; congruence | simpl; assumption].
    destruct (rep _ _ _ _ _ cont'); [reflexivity | exact Hstop].
Qed.

Lemma run_sim (A : Type) (r : regex) :
  class_regex class_of r ->
  forall (cont cont' : cursor -> option A),
  (forall k1 k1', cursor_sim class_of k1 k1' -> cont k1 = cont' k1') ->
  forall k k', cursor_sim class_of k k' -> run r k cont = run r k' cont'.
Proof.
  induction r as [p|p lo hi|r1 IH1 r2 IH2|r1 IH1|r1 IH1|];
    simpl; intros Hr cont cont' Hcont k k' Hk.
  - destruct Hk as (Hpos & Hspan & Hrest).
    destruct Hrest as [|c c' s s' Hc Hs]; [reflexivity|].
    rewrite (Hr c c' Hc). destruct (p c'); [|reflexivity].
    apply Hcont. repeat split; simpl; auto.
  - destruct Hk as (Hpos & Hspan & Hrest). now apply rep_sim.
  - destruct Hr as [Hr1 Hr2]. apply IH1; auto.
  - rewrite (IH1 Hr cont cont' Hcont k k' Hk).
    destruct (run r1 k' cont'); [reflexivity | now apply Hcont].
  - apply IH1; auto. intros k1 k1' (Hpos1 & Hspan1 & Hrest1).
    apply Hcont. destruct Hk as (Hpos & _ & _).
    repeat split; simpl; auto. congruence.
  - contradiction.
Qed.

(** Two texts with the same classes, character by character, are matched
    alike. *)
Lemma match_span_sim (r : regex) (before before' : option ascii) (s s' : str) :
  class_regex class_of r -> Forall2 (same_class class_of) s s' ->
  match_span r before s = match_span r before' s'.
Proof.
  intros Hr Hs. unfold match_span. apply run_sim; auto.
  - intros k1 k1' (Hpos & Hspan & _). congruence.
  - repeat split; simpl; auto.
Qed.

End Classes.

(** ** The phone pattern *)

Ltac each_ascii c :=
  destruct c as [[] [] [] [] [] [] [] []]; vm_compute; try reflexivity;
  try discriminate.

Lemma is_digit_class (c : ascii) :
  is_digit c = match phone_class_of c with PDigit => true | _ => false end.
Proof. each_ascii c. Qed.

Lemma sep_class_class (c : ascii) :
  sep_class c = match phone_class_of c with PSep => true | _ => false end.
Proof. each_ascii c. Qed.

Lemma eqb_plus_class (c : ascii) :
  Ascii.eqb "+" c = match phone_class_of c with PPlus => true | _ => false end.
Proof. each_ascii c. Qed.

Lemma eqb_lparen_class (c : ascii) :
  Ascii.eqb "(" c = match phone_class_of c with PLparen => true | _ => false end.
Proof. each_ascii c. Qed.

Lemma eqb_rparen_class (c : ascii) :
  Ascii.eqb ")" c = match phone_class_of c with PRparen => true | _ => false end.
Proof. each_ascii c. Qed.

Lemma phone_pattern_class : class_regex phone_class_of phone_pattern.
Proof.
  unfold phone_pattern, Lit1; simpl; unfold respects, same_class;
    repeat split; intros a b E.
  - now rewrite !eqb_plus_class, E.
  - now rewrite !is_digit_class, E.
  - now rewrite !sep_class_class, E.
  - now rewrite !eqb_lparen_class, E.
  - now rewrite !is_digit_class, E.
  - now rewrite !eqb_rparen_class, E.
  - now rewrite !sep_class_class, E.
  - now rewrite !is_digit_class, E.
  - now rewrite !sep_class_class, E.
  - now rewrite !is_digit_class, E.
Qed.

Lemma canon_char_class (c : ascii) :
  phone_class_of (canon_char c) = phone_class_of c.
Proof. unfold canon_char. now destruct (phone_class_of c). Qed.

(** The classes of the text up to one character past [body] decide the
    match. *)
Lemma match_span_canon (before : option ascii) (body post : str) :
  match_span phone_pattern before (body ++ post)
  = match_span phone_pattern None (map canon_char body ++ canon_tail post).
Proof.
  apply match_span_sim with (class_of := phone_class_of).
  - exact phone_pattern_class.
  - induction body as [|c body IH]; simpl.
    + destruct post as [|c post']; simpl; constructor.
      * unfold same_class. now rewrite canon_char_class.
      * clear. induction post'; constructor; unfold same_class; auto.
    + constructor; [|exact IH].
      unfold same_class. now rewrite canon_char_class.
Qed.

Lemma canon_digit (c : ascii) : is_digit c = true -> canon_char c = "0"%char.
Proof.
  rewrite is_digit_class. unfold canon_char.
  now destruct (phone_class_of c).
Qed.

Lemma canon_sep (c : ascii) : sep_class c = true -> canon_char c = "-"%char.
Proof.
  rewrite sep_class_class. unfold canon_char.
  now destruct (phone_class_of c).
Qed.

Lemma canon_lparen (c : ascii) :
  Ascii.eqb "(" c = true -> canon_char c = "("%char.
Proof.
  rewrite eqb_lparen_class. unfold canon_char.
  now destruct (phone_class_of c).
Qed.

Lemma canon_rparen (c : ascii) :
  Ascii.eqb ")" c = true -> canon_char c = ")"%char.
Proof.
  rewrite eqb_rparen_class. unfold canon_char.
  now destruct (phone_class_of c).
Qed.

Ltac split_digits H :=
  let L := fresh "L" in let F := fresh "F" in
  destruct H as [L F];
  repeat match type of L with
  | List.length ?l = _ =>
      let c := fresh "d" in destruct l as [|c l]; [discriminate L|];
      simpl in L; apply eq_add_S in L
  end;
  repeat match type of F with
  | Forall _ (_ :: _) =>
      let Hc := fresh "Hd" in
      apply Forall_cons_iff in F; destruct F as [Hc F];
      apply canon_digit in Hc
  end;
  try (match type of L with List.length ?l = 0 =>
         destruct l; [|discriminate L] end);
  clear L F.

Ltac split_optional H lem :=
  let c := fresh "c" in let E := fresh "E" in let Hc := fresh "Hc" in
  destruct H as [E | (c & E & Hc)]; [| apply lem in Hc]; subst.

Lemma match_local_number (before : option ascii) (body post : str) :
  local_number body -> no_digit_next post ->
  match_span phone_pattern before (body ++ post)
  = Some (List.length body, None).
Proof.
  intros (lp & area & rp & sep1 & mid & sep2 & last & -> &
          Hlp & Ha & Hrp & Hs1 & Hm & Hs2 & Hl) Hpost.
  rewrite match_span_canon.
  split_digits Ha; split_digits Hm; split_digits Hl.
  assert (Htail : exists k, k <> PDigit /\
            canon_tail post = match post with
                              | [] => []
                              | _ :: post' => phone_class_char k :: post'
                              end).
  { destruct post as [|c post']; [now exists POther|].
    exists (phone_class_of c). split; [|reflexivity].
    simpl in Hpost. rewrite is_digit_class in Hpost.
    now destruct (phone_class_of c). }
  destruct Htail as (k & Hk & ->).
  split_optional Hlp canon_lparen; split_optional Hrp canon_rparen;
    split_optional Hs1 canon_sep; split_optional Hs2 canon_sep;
    simpl map; repeat match goal with H : canon_char _ = _ |- _ =>
                        rewrite H; clear H end;
    (destruct post as [|? ?];
     [| destruct k; try congruence]; vm_compute; reflexivity).
Qed.

Lemma no_match_at_other (before : option ascii) (x : ascii) (s : str) :
  is_digit x = false ->
  (phone_class_of x = PPlus \/ phone_class_of x = PLparen ->
   no_digit_next s) ->
  match_span phone_pattern before (x :: s) = None.
Proof.
  intros Hx Hs. change (x :: s) with ([x] ++ s).
  rewrite match_span_canon. simpl map.
  rewrite is_digit_class in Hx. unfold canon_char at 1.
  destruct s as [|c s']; simpl canon_tail.
  - destruct (phone_class_of x); try discriminate; vm_compute; reflexivity.
  - assert (Hc : phone_class_of x = PPlus \/ phone_class_of x = PLparen ->
                 phone_class_of c <> PDigit).
    { intros H E. specialize (Hs H). simpl in Hs.
      rewrite is_digit_class, E in Hs. discriminate. }
    unfold canon_char.
    destruct (phone_class_of x); try discriminate;
      destruct (phone_class_of c);
      first [ solve [exfalso; apply Hc; [auto | reflexivity]]
            | vm_compute; reflexivity ].
Qed.

Lemma search_at_local_number (before : option ascii) (body post : str) :
  local_number body -> no_digit_next post ->
  exists m, search phone_pattern before (body ++ post) = Some m
            /\ group1 m = None.
Proof.
  intros Hb Hp. rewrite search_unfold. unfold match_at.
  rewrite (@match_local_number before body post Hb Hp). simpl.
  eexists. split; reflexivity.
Qed.

Lemma local_number_lparen (body : str) :
  local_number body ->
  no_digit_next body \/ local_number ("("%char :: body).
Proof.
  intros (lp & area & rp & sep1 & mid & sep2 & last & -> &
          Hlp & Ha & Hrp & Hs1 & Hm & Hs2 & Hl).
  destruct Hlp as [-> | (c & -> & Hc)].
  - right. exists ["("%char], area, rp, sep1, mid, sep2, last.
    repeat split; try assumption; try apply Ha; try apply Hm; try apply Hl.
    right. now exists "("%char.
  - left. apply Ascii.eqb_eq in Hc. subst c. reflexivity.
Qed.

Lemma class_plus (x : ascii) : phone_class_of x = PPlus -> x = "+"%char.
Proof. each_ascii x. Qed.

Lemma class_lparen (x : ascii) : phone_class_of x = PLparen -> x = "("%char.
Proof. each_ascii x. Qed.

Lemma local_number_nonempty (body : str) :
  local_number body -> body <> [].
Proof.
  intros (lp & area & rp & sep1 & mid & sep2 & last & -> &
          Hlp & Ha & Hrp & Hs1 & Hm & Hs2 & Hl).
  destruct Ha as [La _]. destruct area; [discriminate|].
  destruct lp; discriminate.
Qed.

(** The leftmost match lies on a number that follows a digit-free stretch
    of text, and group 1 takes no part in it. *)
Lemma search_before_local_number (pre : str) :
  forall (before : option ascii) (body post : str),
  Forall (fun c => is_digit c = false) pre ->
  List.last pre " "%char <> "+"%char ->
  local_number body -> no_digit_next post ->
  exists m, search phone_pattern before (pre ++ body ++ post) = Some m
            /\ group1 m = None.
Proof.
  induction pre as [|x pre IH]; intros before body post Hpre Hlast Hb Hp.
  - simpl. now apply search_at_local_number.
  - apply Forall_cons_iff in Hpre. destruct Hpre as [Hx Hpre].
    destruct pre as [|y pre'].
    + simpl in Hlast. cbn [app].
      destruct (@local_number_lparen body Hb) as [Hnd | Hlp].
      * rewrite search_unfold. unfold match_at.
        rewrite no_match_at_other; [| assumption |].
        -- simpl. now apply search_at_local_number.
        -- intros _. destruct body; [| exact Hnd].
           now apply local_number_nonempty in Hb.
      * destruct (phone_class_of x) eqn:Ex.
        1: { rewrite is_digit_class, Ex in Hx. discriminate. }
        1: { apply class_plus in Ex. contradiction. }
        1: { apply class_lparen in Ex. subst x.
             change ("("%char :: body ++ post)
               with (("("%char :: body) ++ post).
             now apply search_at_local_number. }
        all: rewrite search_unfold; unfold match_at;
          (rewrite no_match_at_other;
           [| assumption | intros [E | E]; congruence]);
          simpl; now apply search_at_local_number.
    + change ((x :: y :: pre') ++ body ++ post)
        with (x :: (y :: pre') ++ body ++ post).
      rewrite search_unfold. unfold match_at.
      rewrite no_match_at_other; [| assumption |].
      * simpl option_map. cbv iota. apply IH; auto.
      * intros _. simpl. apply Forall_cons_iff in Hpre. apply Hpre.
Qed.

(** ** Phone extraction *)

(** What [extract_phone] returns is group 1 of the leftmost match, not the
    matched text. *)
Lemma extract_phone_search (text : str) :
  extract_phone text = option_map group_text (search phone_pattern None text).
Proof. apply findall1_first. Qed.

Lemma extract_phone_absent (text : str) :
  extract_phone text = None <-> search phone_pattern None text = None.
Proof.
  rewrite extract_phone_search.
  destruct (search phone_pattern None text); simpl; split; congruence.
Qed.

Lemma completeness_points (cv : cv_data) :
  (completeness cv ==
   points (truthy (email cv)) + points (truthy (phone cv))
   + points (nonempty (skills cv)) + points (experience_years cv >? 0)%Z)%Q.
Proof.
  unfold completeness, points.
  destruct (truthy (email cv)), (truthy (phone cv)), (nonempty (skills cv)),
    (experience_years cv >? 0)%Z; reflexivity.
Qed.

(** C2, at the text ["555-123-4567"]: the first substring that matches the
    phone pattern is the whole text, and [extract_phone] returns the empty
    string, the content of the country-code group that took no part in the
    match. *)
Theorem extract_phone_returns_group :
  let text := s2l "555-123-4567" in
  option_map whole (search phone_pattern None text) = Some text /\
  extract_phone text = Some [].
Proof. split; vm_compute; reflexivity. Qed.

(** A number that follows a stretch of text with no digit in it, and not
    ending in ['+'], is where the pattern first matches: [extract_phone]
    returns the empty string. *)
Lemma phone_after_digit_free_text (pre body post : str) :
  Forall (fun c => is_digit c = false) pre ->
  List.last pre " "%char <> "+"%char ->
  local_number body ->
  no_digit_next post ->
  extract_phone (pre ++ body ++ post) = Some [].
Proof.
  intros Hpre Hlast Hb Hp. rewrite extract_phone_search.
  destruct (@search_before_local_number pre None body post Hpre Hlast Hb Hp)
    as (m & -> & Hm).
  simpl. unfold group_text. now rewrite Hm.
Qed.

(** C10 (as amended): when the phone pattern first matches at a 3-3-4
    number written without a country code (it matches at no offset before
    the number) and no digit follows the number, [extract_phone] returns
    the empty string, and [completeness] gives no points for the phone. *)
Theorem phone_without_country_code (pre body post : str) :
  (forall n, n < List.length pre ->
             match_at_offset phone_pattern None (pre ++ body ++ post) n
             = None) ->
  local_number body ->
  no_digit_next post ->
  extract_phone (pre ++ body ++ post) = Some [] /\
  forall cv : cv_data,
    phone cv = extract_phone (pre ++ body ++ post) ->
    (completeness cv ==
     points (truthy (email cv)) + points (nonempty (skills cv))
     + points (experience_years cv >? 0)%Z)%Q.
Proof.
  intros Hpre Hb Hp.
  assert (E : extract_phone (pre ++ body ++ post) = Some []).
  { rewrite extract_phone_search.
    rewrite (@search_skip phone_pattern pre (body ++ post) None Hpre).
    destruct (@search_at_local_number
                (before_offset None (pre ++ body ++ post) (List.length pre))
                body post Hb Hp) as (m & -> & Hm).
    simpl. unfold group_text. now rewrite Hm. }
  split; [exact E|].
  intros cv Hcv. rewrite completeness_points, Hcv, E. simpl truthy.
  unfold points at 2. ring.
Qed.

Lemma local_number_example : local_number (s2l "555-123-4567").
Proof.
  exists [], (s2l "555"), [], (s2l "-"), (s2l "123"), (s2l "-"), (s2l "4567").
  repeat split; try (left; reflexivity);
    try (right; exists "-"%char; split; reflexivity);
    repeat constructor.
Qed.

(** The theorem at a text with digits before the number. *)
Lemma phone_without_country_code_witness :
  (forall n, n < List.length (s2l "Since 2019: ") ->
     match_at_offset phone_pattern None
       (s2l "Since 2019: " ++ s2l "555-123-4567" ++ s2l ".") n = None) /\
  local_number (s2l "555-123-4567") /\
  no_digit_next (s2l ".") /\
  extract_phone (s2l "Since 2019: " ++ s2l "555-123-4567" ++ s2l ".")
  = Some [].
Proof.
  assert (H1 : forall n, n < List.length (s2l "Since 2019: ") ->
     match_at_offset phone_pattern None
       (s2l "Since 2019: " ++ s2l "555-123-4567" ++ s2l ".") n = None).
  { intros n Hn.
    do 12 (destruct n as [|n]; [vm_compute; reflexivity|]).
    simpl in Hn. lia. }
  assert (H3 : no_digit_next (s2l ".")) by reflexivity.
  refine (conj H1 (conj local_number_example (conj H3 _))).
  exact (proj1 (@phone_without_country_code (s2l "Since 2019: ")
                  (s2l "555-123-4567") (s2l ".")
                  H1 local_number_example H3)).
Defined.

(** C10 as stated fails.  The first text holds the number ["555-765-4321"],
    written without a country code, after a number that has one; the
    second holds one number only, written without a country code, after a
    room number.  [extract_phone] returns ["+1 "] and ["12 "], for which
    [completeness] gives the phone points. *)
Lemma phone_later_number_counterexample :
  let text1 := s2l "Office +1 555-123-4567, home 555-765-4321" in
  let text2 := s2l "Room 12 555-123-4567" in
  text1 = s2l "Office +1 555-123-4567, home " ++ s2l "555-765-4321" ++ [] /\
  text2 = s2l "Room 12 " ++ s2l "555-123-4567" ++ [] /\
  extract_phone text1 = Some (s2l "+1 ") /\
  extract_phone text2 = Some (s2l "12 ") /\
  extract_phone text1 <> Some [] /\
  extract_phone text2 <> Some [] /\
  points (truthy (extract_phone text1)) = 25%Q /\
  points (truthy (extract_phone text2)) = 25%Q.
Proof.
  repeat split; try (vm_compute; reflexivity); vm_compute; discriminate.
Qed.

(** ** The worked example of the specification *)

(** C1, the code at the example: the phone field is the empty string, so the
    completeness is 75 and the overall score 84.17; the other three
    components and the tier are the ones of the specification. *)
Theorem analyze_example :
  let cv := fst example_analysis in
  let sc := snd example_analysis in
  email cv = Some (s2l "a@b.com") /\
  phone cv = Some [] /\
  skills cv = [s2l "Python"; s2l "React"] /\
  experience_years cv = 5%Z /\
  education cv = [s2l "BACHELOR"; s2l "BA"] /\
  (skills_match (breakdown sc) == 66.67)%Q /\
  (experience_match (breakdown sc) == 100)%Q /\
  (education_match (breakdown sc) == 100)%Q /\
  (cv_completeness (breakdown sc) == 75)%Q /\
  (overall_score sc == 84.17)%Q /\
  recommendation sc = s2l "Strong Match - Highly Recommended for Interview".
Proof. repeat split; vm_compute; reflexivity. Qed.

(** ** Rounding *)

Section Rounding.

Open Scope Q_scope.




Lemma round_half_even_comp (x y : Q) :
  x == y -> round_half_even x = round_half_even y.
Proof.
  intros E. unfold round_half_even.
  rewrite (Qfloor_comp x y E).
  assert (Ec : Qcompare (x - inject_Z (Qfloor y)) (1 # 2)
               = Qcompare (y - inject_Z (Qfloor y)) (1 # 2)).
  { apply Qcompare_comp; [now rewrite E | reflexivity]. }
  now rewrite Ec.
Qed.

Lemma py_round2_comp (x y : Q) : x == y -> py_round2 x = py_round2 y.
Proof.
  intros E. unfold py_round2. f_equal.
  apply round_half_even_comp. now rewrite E.
Qed.



End Rounding.

(** ** The scores *)

Section Scores.

Open Scope Q_scope.












Lemma _get_recommendation_tiers (t : Q) :
  (80 <= t /\ _get_recommendation t = strong_match) \/
  (65 <= t < 80 /\ _get_recommendation t = good_match) \/
  (50 <= t < 65 /\ _get_recommendation t = moderate_match) \/
  (t < 50 /\ _get_recommendation t = weak_match).
Proof.
  unfold _get_recommendation.
  destruct (Qle_bool 80 t) eqn:E80.
  { left. split; [now apply Qle_bool_iff | reflexivity]. }
  assert (H80 : t < 80).
  { apply Qnot_le_lt. intros H. apply Qle_bool_iff in H. congruence. }
  destruct (Qle_bool 65 t) eqn:E65.
  { right; left. repeat split; [now apply Qle_bool_iff | exact H80]. }
  assert (H65 : t < 65).
  { apply Qnot_le_lt. intros H. apply Qle_bool_iff in H. congruence. }
  destruct (Qle_bool 50 t) eqn:E50.
  { right; right; left. repeat split; [now apply Qle_bool_iff | exact H65]. }
  right; right; right. split; [|reflexivity].
  apply Qnot_le_lt. intros H. apply Qle_bool_iff in H. congruence.
Qed.

(** C4 (as amended): the recommendation is decided, with inclusive lower
    bounds 80, 65 and 50, by the weighted total before it is rounded; the
    overall score that is returned is that total rounded to two decimals. *)
Theorem recommendation_from_total (cv : cv_data) (job : job_requirements) :
  let t := total_score cv job in
  let r := calculate_overall_score cv job in
  overall_score r = py_round2 t /\
  ((80 <= t /\ recommendation r = strong_match) \/
   (65 <= t < 80 /\ recommendation r = good_match) \/
   (50 <= t < 65 /\ recommendation r = moderate_match) \/
   (t < 50 /\ recommendation r = weak_match)).
Proof.
  intros t r. split; [reflexivity|].
  apply _get_recommendation_tiers.
Qed.

(** C4 as stated fails: for the text below, with 1000 required years, the
    total is 79.996; the overall score that is returned is 80.00 and the
    recommendation is the one of the tier below. *)
Lemma recommendation_boundary_counterexample :
  let r := snd (analyze_text
             (s2l "a@b.com +1 555-123-4567 476 years experience python bachelor")
             None 1000 (s2l "bachelor")) in
  overall_score r == 80 /\
  recommendation r = good_match /\
  recommendation r <> strong_match.
Proof.
  repeat split; try (vm_compute; reflexivity). vm_compute. discriminate.
Qed.



(** The breakdown reports each score rounded to two decimals. *)
Lemma breakdown_reported (cv : cv_data) (job : job_requirements) :
  let b := breakdown (calculate_overall_score cv job) in
  skills_match b = py_round2 (skills_score cv job) /\
  experience_match b
  = py_round2 (exp_score (experience_years cv) (min_experience_years job)) /\
  education_match b
  = py_round2 (edu_score (required_education job) (education cv)) /\
  cv_completeness b = py_round2 (completeness cv).
Proof. repeat split. Qed.

End Scores.

(** ** Education and skills *)

Section EducationSkills.

Open Scope Q_scope.

Lemma mem_any (candidate_edu : list str) (names : list str) :
  existsb (fun d => mem d candidate_edu) names = true
  <-> exists d, In d names /\ In d candidate_edu.
Proof.
  rewrite existsb_exists. split; intros (d & Hd & H); exists d;
    (split; [assumption | now apply mem_In]).
Qed.

Lemma nonempty_not_nil (A : Type) (l : list A) :
  nonempty l = true <-> l <> [].
Proof. destruct l; simpl; split; congruence. Qed.

(** C6: the education score is 100 when the lower-cased requirement holds
    ["phd"] and the candidate has PHD; otherwise 100 when it holds
    ["master"] and the candidate has one of MASTER, MBA, MSC, MA; otherwise
    100 when it holds ["bachelor"] and the candidate has one of BACHELOR,
    BSC, BA; otherwise 80 when the candidate has any entry; otherwise 0. *)
Theorem edu_score_tiers (required_education : str) (candidate_edu : list str) :
  let req := lower required_education in
  let has := fun d : string => In (s2l d) candidate_edu in
  let phd := substring (s2l "phd") req /\ has "PHD"%string in
  let master :=
    substring (s2l "master") req /\
    (has "MASTER" \/ has "MBA" \/ has "MSC" \/ has "MA")%string in
  let bachelor :=
    substring (s2l "bachelor") req /\
    (has "BACHELOR" \/ has "BSC" \/ has "BA")%string in
  let v := edu_score required_education candidate_edu in
  (phd /\ v = 100) \/
  (~ phd /\ master /\ v = 100) \/
  (~ phd /\ ~ master /\ bachelor /\ v = 100) \/
  (~ phd /\ ~ master /\ ~ bachelor /\ candidate_edu <> [] /\ v = 80) \/
  (~ phd /\ ~ master /\ ~ bachelor /\ candidate_edu = [] /\ v = 0).
Proof.
  intros req has phd master bachelor v.
  assert (Rphd : contains (s2l "phd") req && mem (s2l "PHD") candidate_edu
                 = true <-> phd).
  { rewrite andb_true_iff, contains_substring, mem_In. reflexivity. }
  assert (Rmaster :
    contains (s2l "master") req
    && existsb (fun d => mem d candidate_edu)
         (map s2l ["MASTER"; "MBA"; "MSC"; "MA"]%string) = true <-> master).
  { rewrite andb_true_iff, contains_substring, mem_any. unfold master, has.
    split; intros [Hs H]; split; try assumption.
    - destruct H as (d & Hd & H). simpl in Hd.
      destruct Hd as [<- | [<- | [<- | [<- | []]]]]; auto.
    - destruct H as [H | [H | [H | H]]]; eexists; (split; [|exact H]);
        simpl; auto. }
  assert (Rbachelor :
    contains (s2l "bachelor") req
    && existsb (fun d => mem d candidate_edu)
         (map s2l ["BACHELOR"; "BSC"; "BA"]%string) = true <-> bachelor).
  { rewrite andb_true_iff, contains_substring, mem_any. unfold bachelor, has.
    split; intros [Hs H]; split; try assumption.
    - destruct H as (d & Hd & H). simpl in Hd.
      destruct Hd as [<- | [<- | [<- | []]]]; auto.
    - destruct H as [H | [H | H]]; eexists; (split; [|exact H]);
        simpl; auto. }
  unfold v, edu_score. fold req.
  destruct (contains (s2l "phd") req && mem (s2l "PHD") candidate_edu).
  { left. split; [now apply Rphd | reflexivity]. }
  assert (Nphd : ~ phd) by (intros H; apply Rphd in H; discriminate).
  destruct (contains (s2l "master") req && _).
  { right; left. repeat split; [exact Nphd | now apply Rmaster ..]. }
  assert (Nmaster : ~ master) by (intros H; apply Rmaster in H; discriminate).
  destruct (contains (s2l "bachelor") req && _).
  { right; right; left.
    repeat split; [exact Nphd | exact Nmaster | now apply Rbachelor ..]. }
  assert (Nbachelor : ~ bachelor)
    by (intros H; apply Rbachelor in H; discriminate).
  destruct candidate_edu as [|x l]; simpl.
  - right; right; right; right. repeat split; assumption.
  - right; right; right; left. repeat split; try assumption. discriminate.
Qed.

Lemma skill_present_iff (candidate_skills : list str) (skill : str) :
  skill_present candidate_skills skill = true
  <-> exists c, In c candidate_skills /\ lower c = lower skill.
Proof.
  unfold skill_present. rewrite existsb_exists.
  split; intros (c & Hc & E); exists c; (split; [assumption|]).
  - apply str_eqb_eq in E. congruence.
  - apply str_eqb_eq. congruence.
Qed.




Lemma skill_match_examples :
  calculate_skill_match_score [s2l "Python"; s2l "React"]
    [s2l "python"; s2l "react"; s2l "docker"] == 66.67 /\
  calculate_skill_match_score [s2l "Python"] [s2l "PYTHON"; s2l "python"]
  == 100 /\
  calculate_skill_match_score [] [s2l "python"] == 0.
Proof. repeat split; vm_compute; reflexivity. Qed.

End EducationSkills.

(** ** Experience extraction *)

Lemma findall1_cases (r : regex) (s : str) :
  (exists m, first_match r None s m /\
             exists rest, findall1 r s = group_text m :: rest) \/
  (matches_nowhere r None s /\ findall1 r s = []).
Proof.
  pose proof (findall1_first r s) as H.
  destruct (search r None s) as [m|] eqn:E.
  - left. exists m. split; [now apply search_first_match|].
    destruct (findall1 r s) as [|g rest]; [discriminate|].
    injection H as ->. now exists rest.
  - right. split; [now apply search_nowhere|].
    now destruct (findall1 r s).
Qed.

Lemma skipn_cons_S (A : Type) (n : nat) (l : list A) (c : A) (l' : list A) :
  skipn n l = c :: l' -> skipn (S n) l = l'.
Proof.
  revert l. induction n as [|n IH]; intros l; simpl.
  - now intros ->.
  - destruct l as [|x l]; [discriminate|]. apply IH.
Qed.

(** What a successful repetition took. *)
Lemma rep_inv (A : Type) (p : ascii -> bool) (cont : cursor -> option A)
    (a : A) (s : str) :
  forall lo hi k,
  rep p lo hi s k cont = Some a ->
  exists n k',
    lo <= n /\ n <= List.length s /\
    Forall (fun c => p c = true) (firstn n s) /\
    pos k' = pos k + n /\ rest k' = skipn n s /\ span k' = span k /\
    cont k' = Some a.
Proof.
  induction s as [|c s IH]; intros lo hi k H; cbn [rep] in H.
  - destruct lo; [|discriminate].
    exists 0, (Cursor (prev k) (pos k) [] (span k)). simpl.
    repeat split; auto.
  - assert (Hstop :
      match lo with
      | 0 => cont (Cursor (prev k) (pos k) (c :: s) (span k))
      | S _ => None
      end = Some a ->
      exists n k',
        lo <= n /\ n <= List.length (c :: s) /\
        Forall (fun c => p c = true) (firstn n (c :: s)) /\
        pos k' = pos k + n /\ rest k' = skipn n (c :: s) /\
        span k' = span k /\ cont k' = Some a).
    { destruct lo; [|discriminate]. intros Hc.
      exists 0, (Cursor (prev k) (pos k) (c :: s) (span k)). simpl.
      repeat split; auto; lia. }
    destruct (p c && more_allowed hi) eqn:E; [|now apply Hstop].
    destruct (rep p (Nat.pred lo) (dec_hi hi) s (advance c s k) cont) eqn:R;
      [|now apply Hstop].
    injection H as ->. apply andb_true_iff in E. destruct E as [Hp _].
    destruct (IH _ _ _ R)
      as (n & k' & Hlo & Hn & Hall & Hpos & Hrest & Hspan & Hc).
    exists (S n), k'. simpl in *. repeat split; auto; try lia.
Qed.

(** A successful match keeps the cursor in order and, when the pattern goes
    through a group, leaves a span. *)
Lemma run_inv (s0 : str) (A : Type) (r : regex) :
  digit_groups r ->
  forall (cont : cursor -> option A) (a : A) (k : cursor),
  cursor_ok s0 k -> run r k cont = Some a ->
  exists k',
    cursor_ok s0 k' /\
    (sets_group r = true \/ span k <> None -> span k' <> None) /\
    cont k' = Some a.
Proof.
  induction r as [p|p lo hi|r1 IH1 r2 IH2|r1 IH1|r1 IH1|];
    simpl; intros Hr cont a k [Hrest Hspan] H.
  - destruct (rest k) as [|c s'] eqn:E; [discriminate|].
    destruct (p c); [|discriminate].
    exists (advance c s' k). repeat split; simpl; auto.
    + symmetry. eapply skipn_cons_S. now rewrite <- Hrest.
    + intros [? | ?]; [discriminate | assumption].
  - destruct (rep_inv _ _ _ _ _ _ H)
      as (n & k' & _ & _ & _ & Hpos & Hrest' & Hspan' & Hc).
    exists k'. repeat split; auto.
    + rewrite Hrest', Hrest, Hpos, skipn_skipn. f_equal. lia.
    + now rewrite Hspan'.
    + rewrite Hspan'. intros [? | ?]; [discriminate | assumption].
  - destruct Hr as [Hr1 Hr2].
    destruct (IH1 Hr1 _ _ k (conj Hrest Hspan) H) as (k1 & Hk1 & Hs1 & H1).
    destruct (IH2 Hr2 _ _ k1 Hk1 H1) as (k2 & Hk2 & Hs2 & H2).
    exists k2. repeat split; try apply Hk2; auto.
    intros Hor. apply Hs2.
    rewrite orb_true_iff in Hor.
    destruct (sets_group r2); [now left | right].
    apply Hs1. destruct Hor as [[? | ?] | ?]; auto. discriminate.
  - destruct (run r1 k cont) eqn:R.
    + injection H as ->.
      destruct (IH1 Hr _ _ k (conj Hrest Hspan) R) as (k1 & Hk1 & Hs1 & H1).
      exists k1. repeat split; try apply Hk1; auto.
      intros [? | ?]; [discriminate | auto].
    + exists k. repeat split; auto.
      intros [? | ?]; [discriminate | auto].
  - destruct Hr as (lo & hi & ->). simpl in H.
    destruct (rep_inv _ _ _ _ _ _ H)
      as (n & k' & Hlo & Hn & Hall & Hpos & Hrest' & Hspan' & Hc).
    eexists. split; [|split; [|exact Hc]]; simpl.
    + split; simpl.
      * rewrite Hrest', Hrest, Hpos, skipn_skipn. f_equal. lia.
      * unfold slice. rewrite Hpos, <- Hrest.
        replace (pos k + n - pos k) with n by lia.
        split; [|exact Hall].
        destruct (rest k); simpl in *; [lia|].
        destruct n; [lia | discriminate].
    + discriminate.
  - destruct (at_word_boundary k); [|discriminate].
    exists k. repeat split; auto.
    intros [? | ?]; [discriminate | auto].
Qed.

(** A match of a pattern that must go through a group of digits has a
    non-empty run of digits as group 1. *)
Lemma match_at_digit_group (r : regex) (before : option ascii) (s : str)
    (len : nat) (m : match_obj) :
  digit_groups r -> sets_group r = true ->
  match_at r before s = Some (len, m) ->
  exists ds, group1 m = Some ds /\ digit_string ds.
Proof.
  intros Hr Hs H. unfold match_at, match_span in H.
  destruct (run r _ _) as [sp|] eqn:R; [|discriminate].
  destruct (@run_inv s _ r Hr _ _ (Cursor before 0 s None)
              (conj eq_refl I) R) as (k' & [_ Hspan] & Hset & Hk').
  injection Hk' as <-. injection H as _ <-. simpl.
  destruct (span k') as [[b e]|].
  - now exists (slice s b e).
  - exfalso. apply Hset; auto.
Qed.

Lemma experience_patterns_groups :
  Forall (fun p => digit_groups p /\ sets_group p = true) experience_patterns.
Proof.
  unfold experience_patterns.
  repeat (apply Forall_cons; [split; [cbn | reflexivity] |]);
    [.. | apply Forall_nil];
    repeat match goal with
           | |- _ /\ _ => split
           | |- True => exact I
           | |- exists _, _ => exists 0, None; reflexivity
           end.
Qed.

Lemma first_match_digits (pattern : regex) (t : str) (m : match_obj) :
  In pattern experience_patterns -> first_match pattern None t m ->
  exists ds, group1 m = Some ds /\ digit_string ds.
Proof.
  intros Hin (n & len & _ & Hm & _).
  pose proof experience_patterns_groups as G.
  rewrite Forall_forall in G. destruct (G _ Hin) as [Hd Hs].
  exact (@match_at_digit_group _ _ _ _ _ Hd Hs Hm).
Qed.


Lemma first_experience_cases (patterns : list regex) (t : str) :
  (exists i pattern m,
     nth_error patterns i = Some pattern /\
     (forall j p, j < i -> nth_error patterns j = Some p ->
                  matches_nowhere p None t) /\
     first_match pattern None t m /\
     first_experience patterns t = int_of_digits (group_text m)) \/
  ((forall p, In p patterns -> matches_nowhere p None t) /\
   first_experience patterns t = 0%Z).
Proof.
  induction patterns as [|pattern patterns IH]; simpl.
  - right. split; [intros p []| reflexivity].
  - destruct (findall1_cases pattern t) as [(m & Hm & rest & ->) | [Hn ->]].
    + left. exists 0, pattern, m. repeat split; auto. intros j p Hj. lia.
    + destruct IH as [(i & p & m & Hi & Hbefore & Hm & E) | [Hall E]].
      * left. exists (S i), p, m. repeat split; auto.
        intros [|j] q Hj Hq; simpl in Hq.
        -- now injection Hq as <-.
        -- apply (Hbefore j); [lia | assumption].
      * right. split; [|assumption].
        intros p [<- | Hp]; auto.
Qed.


(** C8: the patterns are tried in their order on the lower-cased text; the
    result is the integer that group 1 holds, a run of one digit or more,
    in the first match of the first pattern that matches somewhere,
    whatever the later patterns and the later matches are, and 0 when no
    pattern matches. *)
Theorem extract_experience_years_first_match (text : str) :
  let t := lower text in
  (exists i pattern m ds,
     nth_error experience_patterns i = Some pattern /\
     (forall j p, j < i -> nth_error experience_patterns j = Some p ->
                  matches_nowhere p None t) /\
     first_match pattern None t m /\
     group1 m = Some ds /\ digit_string ds /\
     extract_experience_years text = int_of_digits ds) \/
  ((forall p, In p experience_patterns -> matches_nowhere p None t) /\
   extract_experience_years text = 0%Z).
Proof.
  intros t.
  destruct (first_experience_cases experience_patterns t)
    as [(i & p & m & Hi & Hbefore & Hm & E) | H]; [left | now right].
  destruct (@first_match_digits p t m) as (ds & Hg & Hds);
    [eapply nth_error_In; eassumption | assumption |].
  exists i, p, m, ds. repeat split; try assumption; try apply Hds.
  unfold extract_experience_years. fold t. rewrite E.
  unfold group_text. now rewrite Hg.
Qed.

(** A later pattern that matches earlier in the text does not decide, and
    neither does a later mention. *)
Lemma extract_experience_years_examples :
  extract_experience_years
    (s2l "Experience: 12+ years. Also 3 years of experience") = 3%Z /\
  extract_experience_years
    (s2l "5 years experience, then 10 years of experience") = 5%Z /\
  extract_experience_years (s2l "7 years in sales") = 7%Z /\
  extract_experience_years (s2l "a long career") = 0%Z.
Proof. repeat split; vm_compute; reflexivity. Qed.

(** ** From the text to the score *)

Section EndToEnd.

Open Scope Q_scope.


Lemma mem_perm (x : str) (l l' : list str) :
  Permutation l l' -> mem x l = mem x l'.
Proof.
  intros P. apply eq_true_iff_eq. rewrite !mem_In.
  split; apply Permutation_in; [assumption | now symmetry].
Qed.

Lemma nonempty_perm (A : Type) (l l' : list A) :
  Permutation l l' -> nonempty l = nonempty l'.
Proof.
  intros P. destruct l, l'; try reflexivity.
  - now apply Permutation_nil_cons in P.
  - symmetry in P. now apply Permutation_nil_cons in P.
Qed.

(** X17: the order in which [set] leaves the skills does not change a score. *)
Lemma calculate_overall_score_skill_order (cv : cv_data)
    (job : job_requirements) (skills' : list str) :
  Permutation (skills cv) skills' ->
  calculate_overall_score cv job
  = calculate_overall_score
      (CvData (email cv) (phone cv) skills' (experience_years cv)
              (education cv)) job.
Proof.
  intros P.
  assert (Es : calculate_skill_match_score (skills cv) (required_skills job)
               = calculate_skill_match_score skills' (required_skills job)).
  { unfold calculate_skill_match_score.
    destruct (required_skills job) as [|r rs]; [reflexivity|].
    do 6 f_equal. apply filter_ext. intros a.
    apply mem_perm. now apply Permutation_map. }
  unfold calculate_overall_score, total_score, scores, skills_score,
    completeness; cbn [email phone skills experience_years education].
  now rewrite Es, (nonempty_perm P).
Qed.

End EndToEnd.

(** ** Batch ranking *)

Section Ranking.

Open Scope Q_scope.

Lemma insert_desc_perm (a : analysis) (l : list analysis) :
  Permutation (insert_desc a l) (a :: l).
Proof.
  induction l as [|b l IH]; simpl; [reflexivity|].
  destruct (Qle_bool (sort_key b) (sort_key a)); [reflexivity|].
  rewrite IH. apply perm_swap.
Qed.

Lemma sort_desc_perm (l : list analysis) : Permutation (sort_desc l) l.
Proof.
  induction l as [|a l IH]; simpl; [reflexivity|].
  rewrite insert_desc_perm. now constructor.
Qed.





Variable pdf_pages_text : list ascii -> str + str.
Variable decode_utf8_ignore : list ascii -> str.
Variable exception_text : http_exception -> str.
Variable required_skills : option (list str).
Variable min_experience_years : Z.
Variable required_education : str.

Let analyze (file : upload_file) : outcome analysis :=
  analyze_cv pdf_pages_text decode_utf8_ignore file required_skills
             min_experience_years required_education.

Let batch (files : list upload_file) : batch_result :=
  batch_analyze_cvs pdf_pages_text decode_utf8_ignore exception_text files
                    required_skills min_experience_years required_education.








End Ranking.

(** One unreadable file among four: three candidates are ranked, the two
    with the same score in the order of the files, and there is one
    error. *)
Lemma batch_example :
  total_candidates example_batch = 4 /\
  successfully_analyzed example_batch = 3 /\
  map analysis_filename (ranked_candidates example_batch)
  = [s2l "c.txt"; s2l "a.txt"; s2l "d.txt"] /\
  errors example_batch
  = [Failed (s2l "b.pdf")
       (s2l "400: PDF extraction failed: EOF marker not found")].
Proof. repeat split; vm_compute; reflexivity. Qed.

(** * Further properties *)

(** ** The matcher takes texts of the pattern *)

Lemma rep_sound (A : Type) (p : ascii -> bool) (cont : cursor -> option A)
    (a : A) (s : str) :
  forall lo hi k,
  rep p lo hi s k cont = Some a ->
  exists n k',
    lo <= n /\ n <= List.length s /\
    (forall h, hi = Some h -> n <= h) /\
    Forall (fun c => p c = true) (firstn n s) /\
    pos k' = pos k + n /\ rest k' = skipn n s /\ span k' = span k /\
    cont k' = Some a.
Proof.
  induction s as [|c s IH]; intros lo hi k H; cbn [rep] in H.
  - destruct lo; [|discriminate].
    exists 0, (Cursor (prev k) (pos k) [] (span k)). simpl.
    repeat split; auto. intros; lia.
  - assert (Hstop :
      match lo with
      | 0 => cont (Cursor (prev k) (pos k) (c :: s) (span k))
      | S _ => None
      end = Some a ->
      exists n k',
        lo <= n /\ n <= List.length (c :: s) /\
        (forall h, hi = Some h -> n <= h) /\
        Forall (fun c => p c = true) (firstn n (c :: s)) /\
        pos k' = pos k + n /\ rest k' = skipn n (c :: s) /\
        span k' = span k /\ cont k' = Some a).
    { destruct lo; [|discriminate]. intros Hc.
      exists 0, (Cursor (prev k) (pos k) (c :: s) (span k)). simpl.
      repeat split; auto; intros; lia. }
    destruct (p c && more_allowed hi) eqn:E; [|now apply Hstop].
    destruct (rep p (Nat.pred lo) (dec_hi hi) s (advance c s k) cont) eqn:R;
      [|now apply Hstop].
    injection H as ->. apply andb_true_iff in E. destruct E as [Hp Hmore].
    destruct (IH _ _ _ R)
      as (n & k' & Hlo & Hn & Hhi & Hall & Hpos & Hrest & Hspan & Hc).
    exists (S n), k'. simpl in *. repeat split; auto; try lia.
    intros h ->. simpl in Hmore, Hhi.
    destruct h as [|h]; [discriminate|].
    specialize (Hhi h eq_refl). simpl in Hhi. lia.
Qed.

Lemma skipn_app_length (A : Type) (w l : list A) :
  skipn (List.length w) (w ++ l) = l.
Proof. induction w; simpl; auto. Qed.

Lemma firstn_app_length (A : Type) (w l : list A) :
  firstn (List.length w) (w ++ l) = w.
Proof. induction w; simpl; [reflexivity | now f_equal]. Qed.

Lemma span_from_seq_l (s0 : str) (r1 r2 : regex)
    (sp0 sp1 sp2 : option (nat * nat)) :
  span_from s0 r1 sp0 sp1 -> span_from s0 r2 sp1 sp2 ->
  span_from s0 (Seq r1 r2) sp0 sp2.
Proof.
  intros H1 [-> | (body & b & e & Hin & -> & Hl)].
  - destruct H1 as [-> | (body & b & e & Hin & -> & Hl)]; [now left|].
    right. exists body, b, e. simpl. rewrite in_app_iff. auto.
  - right. exists body, b, e. simpl. rewrite in_app_iff. auto.
Qed.

(** A successful run takes a text of the pattern from the front of what is
    left, and leaves group 1 as it was or on a text of one of its
    groups. *)
Lemma run_sound (s0 : str) (A : Type) (r : regex) :
  forall (cont : cursor -> option A) (a : A) (k : cursor),
  rest k = skipn (pos k) s0 ->
  run r k cont = Some a ->
  exists w k',
    lang r w /\ rest k = w ++ rest k' /\ pos k' = pos k + List.length w /\
    span_from s0 r (span k) (span k') /\ cont k' = Some a.
Proof.
  induction r as [p|p lo hi|r1 IH1 r2 IH2|r1 IH1|r1 IH1|];
    simpl; intros cont a k Hk H.
  - destruct (rest k) as [|c s'] eqn:E; [discriminate|].
    destruct (p c) eqn:Hp; [|discriminate].
    exists [c], (advance c s' k). simpl.
    split; [now apply lang_chr|]. split; [reflexivity|].
    split; [lia|]. split; [now left | assumption].
  - destruct (@rep_sound _ _ _ _ _ _ _ _ H)
      as (n & k' & Hlo & Hn & Hhi & Hall & Hpos & Hrest & Hspan & Hc).
    exists (firstn n (rest k)), k'.
    assert (Hlen : List.length (firstn n (rest k)) = n)
      by (apply firstn_length_le; assumption).
    repeat split; auto.
    + constructor; rewrite ?Hlen; auto.
    + now rewrite Hrest, firstn_skipn.
    + now rewrite Hlen.
    + left. assumption.
  - destruct (IH1 _ _ _ Hk H) as (w1 & k1 & L1 & R1 & P1 & S1 & H1).
    assert (Hk1 : rest k1 = skipn (pos k1) s0).
    { rewrite P1, Nat.add_comm, <- skipn_skipn, <- Hk, R1.
      now rewrite skipn_app_length. }
    destruct (IH2 _ _ _ Hk1 H1) as (w2 & k2 & L2 & R2 & P2 & S2 & H2).
    exists (w1 ++ w2), k2. repeat split; auto.
    + now constructor.
    + now rewrite R1, R2, app_assoc.
    + rewrite P2, P1, length_app. lia.
    + eapply span_from_seq_l; eassumption.
  - destruct (run r1 k cont) eqn:R.
    + injection H as ->.
      destruct (IH1 _ _ _ Hk R) as (w & k1 & L1 & R1 & P1 & S1 & H1).
      exists w, k1. repeat split; auto. now constructor.
    + exists [], k. split; [apply lang_opt_none|].
      split; [reflexivity|]. split; [simpl; lia|].
      split; [now left | assumption].
  - destruct (IH1 _ _ _ Hk H) as (w & k1 & L1 & R1 & P1 & S1 & H1).
    exists w, (Cursor (prev k1) (pos k1) (rest k1) (Some (pos k, pos k1))).
    cbn [pos rest span]. split; [now constructor|].
    split; [exact R1|]. split; [exact P1|]. split; [|exact H1].
    right. exists r1, (pos k), (pos k1). simpl.
    repeat split; auto.
    unfold slice. rewrite <- Hk, P1.
    replace (pos k + List.length w - pos k) with (List.length w) by lia.
    now rewrite R1, firstn_app_length.
  - destruct (at_word_boundary k); [|discriminate].
    exists [], k. split; [apply lang_wordb|].
    split; [reflexivity|]. split; [simpl; lia|].
    split; [now left | assumption].
Qed.

(** What a match object holds: a text of the pattern at the front of the
    text, and in group 1 nothing or a text of one of the groups. *)
Lemma match_at_sound (r : regex) (before : option ascii) (s : str)
    (len : nat) (m : match_obj) :
  match_at r before s = Some (len, m) ->
  lang r (whole m) /\
  (exists after, s = whole m ++ after) /\
  len = List.length (whole m) /\
  (group1 m = None \/
   exists body g, In body (groups r) /\ group1 m = Some g /\ lang body g).
Proof.
  intros H. unfold match_at, match_span in H.
  destruct (run r _ _) as [sp|] eqn:R; [|discriminate].
  destruct (@run_sound s _ r _ _ (Cursor before 0 s None) eq_refl R)
    as (w & k' & L & Hr & Hp & Hs & Hc).
  simpl in Hr, Hp, Hs. injection Hc as <-. injection H as <- <-.
  cbn [match_of_span fst snd whole group1].
  assert (Hw : firstn (pos k') s = w).
  { rewrite Hp, Hr. apply firstn_app_length. }
  rewrite Hw.
  split; [exact L|]. split; [now exists (rest k')|]. split; [exact Hp|].
  destruct Hs as [-> | (body & b & e & Hin & -> & Hl)]; [now left|].
  right. now exists body, (slice s b e).
Qed.

(** The first match lies in the text. *)
Lemma first_match_substring (r : regex) (s : str) (m : match_obj) :
  first_match r None s m -> substring (whole m) s.
Proof.
  intros (n & len & Hn & Hm & _). unfold match_at_offset in Hm.
  destruct (@match_at_sound _ _ _ _ _ Hm) as (_ & (after & Ha) & _ & _).
  exists (firstn n s), after.
  now rewrite <- Ha, firstn_skipn.
Qed.

(** ** What the email and the phone extraction return *)

Ltac invert_lang H := inversion H; subst; clear H.

Lemma lang_email_form (e : str) : lang email_pattern e -> email_form e.
Proof.
  unfold email_pattern. cbn [Seqs]. intros H.
  invert_lang H.
  match goal with H : lang WordB _ |- _ => invert_lang H end.
  repeat match goal with
         | H : lang (Seq _ _) _ |- _ => invert_lang H
         end.
  repeat match goal with
         | H : lang (Lit1 _) _ |- _ => invert_lang H
         | H : lang WordB _ |- _ => invert_lang H
         | H : lang (Rep _ _ _) _ |- _ => invert_lang H
         end.
  repeat match goal with
         | H : Ascii.eqb _ _ = true |- _ => apply Ascii.eqb_eq in H; subst
         end.
  match goal with
  | |- email_form ([] ++ ?u ++ [_] ++ ?d ++ [_] ++ ?t ++ []) =>
      exists u, d, t
  end.
  rewrite app_nil_r. cbn [app].
  repeat split; try assumption;
    try (intros ->; simpl in *; lia).
Qed.

Lemma lang_country_code (p : str) :
  In_groups_phone p -> country_code_form p.
Proof.
  unfold In_groups_phone. cbn [phone_pattern Seqs groups app].
  intros (body & [<- | []] & H).
  invert_lang H.
  repeat match goal with
         | H : lang (Seq _ _) _ |- _ => invert_lang H
         end.
  match goal with
  | H1 : lang (Opt (Lit1 _)) ?a, H2 : lang (Rep _ _ _) ?b,
    H3 : lang (Opt (Chr _)) ?c |- _ =>
      exists a, b, c; invert_lang H2
  end.
  split; [reflexivity|].
  split.
  { match goal with H : lang (Opt (Lit1 _)) _ |- _ => invert_lang H end;
      [now left|].
    match goal with H : lang (Lit1 _) _ |- _ => invert_lang H end.
    right. eexists. split; [reflexivity | assumption]. }
  split.
  { split; [assumption|].
    match goal with H : forall h, Some 3 = Some h -> _ |- _ =>
      exact (H 3 eq_refl) end. }
  split; [assumption|].
  match goal with H : lang (Opt (Chr _)) _ |- _ => invert_lang H end;
    [now left|].
  match goal with H : lang (Chr _) _ |- _ => invert_lang H end.
  right. eexists. split; [reflexivity | assumption].
Qed.

Lemma extract_email_lang (text e : str) :
  extract_email text = Some e -> substring e text /\ lang email_pattern e.
Proof.
  unfold extract_email. rewrite findall0_first.
  destruct (search email_pattern None text) as [m|] eqn:E; [|discriminate].
  intros [= <-]. apply search_first_match in E.
  split; [exact (@first_match_substring _ _ _ E)|].
  destruct E as (n & len & _ & Hm & _). unfold match_at_offset in Hm.
  now apply (@match_at_sound _ _ _ _ _ Hm).
Qed.

Lemma extract_phone_cases (text p : str) :
  extract_phone text = Some p -> p = [] \/ country_code_form p.
Proof.
  rewrite extract_phone_search.
  destruct (search phone_pattern None text) as [m|] eqn:E; [|discriminate].
  intros [= <-]. apply search_first_match in E.
  destruct E as (n & len & _ & Hm & _). unfold match_at_offset in Hm.
  destruct (@match_at_sound _ _ _ _ _ Hm) as (_ & _ & _ & Hg).
  unfold group_text.
  destruct Hg as [-> | (body & g & Hin & -> & Hl)]; [now left | right].
  apply lang_country_code. now exists body.
Qed.

(** X1: [extract_email] returns a part of the text that has the form
    [user@domain.tld], with the characters that the pattern allows in each
    part: the top-level part has two characters or more, letters or
    ['|']. *)
Theorem extract_email_form (text e : str) :
  extract_email text = Some e -> substring e text /\ email_form e.
Proof.
  intros H. destruct (@extract_email_lang _ _ H) as [Hs Hl].
  split; [exact Hs | now apply lang_email_form].
Qed.

Lemma extract_email_form_witness :
  extract_email example_text = Some (s2l "a@b.com") /\
  substring (s2l "a@b.com") example_text /\ email_form (s2l "a@b.com").
Proof.
  assert (H : extract_email example_text = Some (s2l "a@b.com"))
    by (vm_compute; reflexivity).
  split; [exact H|].
  exact (@extract_email_form example_text (s2l "a@b.com") H).
Defined.

(** X4: [extract_phone] never returns a phone number: what it returns is empty
    or a country code, an optional ['+'], one to three digits and an
    optional separator, five characters at most. *)
Theorem extract_phone_form (text p : str) :
  extract_phone text = Some p ->
  (p = [] \/ country_code_form p) /\ List.length p <= 5.
Proof.
  intros H. apply extract_phone_cases in H.
  split; [exact H|].
  destruct H as [-> | F]; [simpl; lia|].
  destruct F as (plus & ds & sep & -> & Hp & [_ Hd] & _ & Hs).
  rewrite !length_app.
  assert (List.length plus <= 1)
    by (destruct Hp as [-> | (c & -> & _)]; simpl; lia).
  assert (List.length sep <= 1)
    by (destruct Hs as [-> | (c & -> & _)]; simpl; lia).
  lia.
Qed.

Lemma extract_phone_form_witness :
  extract_phone (s2l "Call +44 555-123-4567") = Some (s2l "+44 ") /\
  (s2l "+44 " = [] \/ country_code_form (s2l "+44 ")) /\
  List.length (s2l "+44 ") <= 5.
Proof.
  assert (H : extract_phone (s2l "Call +44 555-123-4567") = Some (s2l "+44 "))
    by (vm_compute; reflexivity).
  split; [exact H|].
  exact (@extract_phone_form (s2l "Call +44 555-123-4567") (s2l "+44 ") H).
Defined.

(** ** Texts with no address and no number *)

Lemma search_sound (r : regex) (s : str) (m : match_obj) :
  search r None s = Some m -> substring (whole m) s /\ lang r (whole m).
Proof.
  intros E. apply search_first_match in E.
  split; [exact (@first_match_substring _ _ _ E)|].
  destruct E as (n & len & _ & Hm & _). unfold match_at_offset in Hm.
  now apply (@match_at_sound _ _ _ _ _ Hm).
Qed.

Lemma count_app (p : ascii -> bool) (a b : str) :
  count p (a ++ b) = count p a + count p b.
Proof. unfold count. now rewrite filter_app, length_app. Qed.

Lemma count_substring (p : ascii -> bool) (sub s : str) :
  substring sub s -> count p sub <= count p s.
Proof.
  intros (a & b & ->). rewrite !count_app. lia.
Qed.

Lemma count_all (p : ascii -> bool) (w : str) :
  Forall (fun c => p c = true) w -> count p w = List.length w.
Proof.
  unfold count. induction 1 as [|c w Hc _ IH]; simpl; [reflexivity|].
  rewrite Hc. simpl. now rewrite IH.
Qed.

Lemma lang_email_at (e : str) :
  lang email_pattern e -> 1 <= count (Ascii.eqb "@") e.
Proof.
  intros H. destruct (lang_email_form H) as (u & d & t & -> & _).
  rewrite !count_app. simpl. lia.
Qed.

Lemma lang_phone_digits (w : str) :
  lang phone_pattern w -> 10 <= count is_digit w.
Proof.
  unfold phone_pattern. cbn [Seqs]. intros H.
  repeat match goal with
         | H : lang (Seq _ _) _ |- _ => invert_lang H
         end.
  repeat match goal with
         | H : lang (Rep is_digit _ _) _ |- _ =>
             let L := fresh "L" in let F := fresh "F" in
             inversion H as [| ? ? ? ? L _ F | | | | |]; subst; clear H;
             apply (count_all is_digit) in F
         end.
  rewrite !count_app. lia.
Qed.

(** X2: a text without ['@'] has no email address. *)
Theorem extract_email_without_at (text : str) :
  count (Ascii.eqb "@") text = 0 -> extract_email text = None.
Proof.
  intros H. unfold extract_email. rewrite findall0_first.
  destruct (search email_pattern None text) as [m|] eqn:E; [|reflexivity].
  destruct (search_sound _ _ E) as [Hs Hl].
  pose proof (count_substring (Ascii.eqb "@") Hs).
  pose proof (lang_email_at Hl). lia.
Qed.

Lemma extract_email_without_at_witness :
  count (Ascii.eqb "@") (s2l "mail me: a at b.com") = 0 /\
  extract_email (s2l "mail me: a at b.com") = None.
Proof.
  assert (H : count (Ascii.eqb "@") (s2l "mail me: a at b.com") = 0)
    by reflexivity.
  split; [exact H|].
  exact (@extract_email_without_at (s2l "mail me: a at b.com") H).
Defined.

(** X5: a text with fewer than ten digits has no phone number. *)
Theorem extract_phone_few_digits (text : str) :
  count is_digit text < 10 -> extract_phone text = None.
Proof.
  intros H. rewrite extract_phone_search.
  destruct (search phone_pattern None text) as [m|] eqn:E; [|reflexivity].
  destruct (search_sound _ _ E) as [Hs Hl].
  pose proof (count_substring is_digit Hs).
  pose proof (lang_phone_digits Hl). lia.
Qed.

Lemma extract_phone_few_digits_witness :
  count is_digit (s2l "tel. 555-1234, ext. 12") < 10 /\
  extract_phone (s2l "tel. 555-1234, ext. 12") = None.
Proof.
  assert (H : count is_digit (s2l "tel. 555-1234, ext. 12") < 10)
    by (vm_compute; lia).
  split; [exact H|].
  exact (@extract_phone_few_digits (s2l "tel. 555-1234, ext. 12") H).
Defined.

(** ** The skills and the degrees that are found *)

Lemma substring_trans (a b c : str) :
  substring a b -> substring b c -> substring a c.
Proof.
  intros (x & y & ->) (u & v & ->).
  exists (u ++ x), (y ++ v). now rewrite <- !app_assoc.
Qed.

Lemma NoDup_map_filter (A B : Type) (f : A -> B) (g : A -> bool)
    (l : list A) :
  NoDup (map f l) -> NoDup (map f (filter g l)).
Proof.
  induction l as [|a l IH]; simpl; intros H; [constructor|].
  apply NoDup_cons_iff in H. destruct H as [Hn Hd].
  destruct (g a); simpl; [|now apply IH].
  constructor; [|now apply IH].
  intros Hin. apply Hn. apply in_map_iff in Hin.
  destruct Hin as (x & E & Hx). apply filter_In in Hx.
  apply in_map_iff. exists x. tauto.
Qed.

Lemma In_map_filter (A B : Type) (f : A -> B) (g : A -> bool)
    (l : list A) (b : B) :
  In b (map f (filter g l)) <-> exists a, In a l /\ g a = true /\ b = f a.
Proof.
  rewrite in_map_iff. split.
  - intros (a & <- & H). apply filter_In in H. exists a. tauto.
  - intros (a & Ha & Hg & ->). exists a. rewrite filter_In. tauto.
Qed.

Lemma NoDup_str (l : list str) :
  nodup_check l = true -> NoDup l.
Proof.
  induction l as [|a l IH]; simpl; intros H; [constructor|].
  apply andb_true_iff in H. destruct H as [Ha Hl].
  constructor; [|now apply IH].
  intros Hin. apply mem_In in Hin. rewrite Hin in Ha. discriminate.
Qed.

Lemma NoDup_map_inj (A B : Type) (f : A -> B) (l : list A) (a b : A) :
  NoDup (map f l) -> In a l -> In b l -> f a = f b -> a = b.
Proof.
  induction l as [|x l IH]; simpl; intros H Ha Hb E; [contradiction|].
  apply NoDup_cons_iff in H. destruct H as [Hn Hd].
  destruct Ha as [-> | Ha], Hb as [-> | Hb]; auto.
  - exfalso. apply Hn. rewrite E. now apply in_map.
  - exfalso. apply Hn. rewrite <- E. now apply in_map.
Qed.

Lemma title_keywords_NoDup : NoDup (map title skill_keywords).
Proof. apply NoDup_str. vm_compute. reflexivity. Qed.

Lemma upper_degrees_NoDup : NoDup (map upper degrees).
Proof. apply NoDup_str. vm_compute. reflexivity. Qed.

Lemma extract_skills_In (text s : str) :
  In s (extract_skills text) <->
  exists k, In k skill_keywords /\ substring k (lower text) /\ s = title k.
Proof.
  unfold extract_skills. rewrite In_map_filter.
  split; intros (k & Hk & H & ->); exists k;
    (split; [assumption|]); (split; [|reflexivity]);
    now apply contains_substring.
Qed.

Lemma extract_education_In (text e : str) :
  In e (extract_education text) <->
  exists d, In d degrees /\ substring d (lower text) /\ e = upper d.
Proof.
  unfold extract_education. rewrite In_map_filter.
  split; intros (k & Hk & H & ->); exists k;
    (split; [assumption|]); (split; [|reflexivity]);
    now apply contains_substring.
Qed.

(** X6: the skills that are found are the title-cased keywords that occur in
    the lower-cased text, each of them once. *)
Theorem extract_skills_found (text : str) :
  (forall s,
     In s (extract_skills text) <->
     exists k, In k skill_keywords /\ substring k (lower text) /\ s = title k)
  /\ NoDup (extract_skills text).
Proof.
  split; [intros s; apply extract_skills_In|].
  apply NoDup_map_filter. exact title_keywords_NoDup.
Qed.

(** X7: a keyword that occurs in another keyword is found whenever the other
    one is: a text with "javascript" has Java as a skill, one with
    "postgresql" has Sql. *)
Theorem extract_skills_inner_keyword (text k1 k2 : str) :
  In k1 skill_keywords -> In k2 skill_keywords -> substring k1 k2 ->
  In (title k2) (extract_skills text) -> In (title k1) (extract_skills text).
Proof.
  intros H1 H2 Hsub Hin.
  apply extract_skills_In in Hin. destruct Hin as (k & Hk & Hs & E).
  apply (NoDup_map_inj title skill_keywords) in E;
    [| exact title_keywords_NoDup | assumption..].
  subst k. apply extract_skills_In. exists k1. repeat split; auto.
  now apply substring_trans with k2.
Qed.

Lemma extract_skills_inner_keyword_witness :
  In (s2l "java") skill_keywords /\
  In (s2l "javascript") skill_keywords /\
  substring (s2l "java") (s2l "javascript") /\
  In (title (s2l "javascript")) (extract_skills (s2l "Ten years of JavaScript")) /\
  In (title (s2l "java")) (extract_skills (s2l "Ten years of JavaScript")).
Proof.
  assert (H1 : In (s2l "java") skill_keywords) by (vm_compute; tauto).
  assert (H2 : In (s2l "javascript") skill_keywords) by (vm_compute; tauto).
  assert (H3 : substring (s2l "java") (s2l "javascript"))
    by (exists [], (s2l "script"); reflexivity).
  assert (H4 : In (title (s2l "javascript"))
                  (extract_skills (s2l "Ten years of JavaScript")))
    by (vm_compute; tauto).
  refine (conj H1 (conj H2 (conj H3 (conj H4 _)))).
  exact (@extract_skills_inner_keyword _ _ _ H1 H2 H3 H4).
Defined.

(** X10: the degrees that are found are the upper-cased keywords that occur in
    the lower-cased text, each of them once. *)
Theorem extract_education_found (text : str) :
  (forall e,
     In e (extract_education text) <->
     exists d, In d degrees /\ substring d (lower text) /\ e = upper d)
  /\ NoDup (extract_education text).
Proof.
  split; [intros e; apply extract_education_In|].
  apply NoDup_map_filter. exact upper_degrees_NoDup.
Qed.

(** X11: the two letters "ba" anywhere in the text, as in "database", count as
    the degree BA, and with it a requirement that names "bachelor" is met
    in full. *)
Theorem edu_score_ba_anywhere (text required_education : str) :
  substring (s2l "ba") (lower text) ->
  substring (s2l "bachelor") (lower required_education) ->
  In (s2l "BA") (extract_education text) /\
  edu_score required_education (extract_education text) = 100%Q.
Proof.
  intros Hba Hreq.
  assert (Hin : In (s2l "BA") (extract_education text)).
  { apply extract_education_In. exists (s2l "ba").
    repeat split; auto. vm_compute. tauto. }
  split; [exact Hin|].
  unfold edu_score.
  apply contains_substring in Hreq. apply mem_In in Hin.
  destruct (contains (s2l "phd") (lower required_education)
            && mem (s2l "PHD") (extract_education text)); [reflexivity|].
  destruct (contains (s2l "master") (lower required_education) && _);
    [reflexivity|].
  rewrite Hreq. cbn [map existsb andb].
  rewrite Hin, !orb_true_r. reflexivity.
Qed.

Lemma edu_score_ba_anywhere_witness :
  substring (s2l "ba") (lower (s2l "Database administrator")) /\
  substring (s2l "bachelor") (lower (s2l "Bachelor")) /\
  In (s2l "BA") (extract_education (s2l "Database administrator")) /\
  edu_score (s2l "Bachelor")
    (extract_education (s2l "Database administrator")) = 100%Q.
Proof.
  assert (H1 : substring (s2l "ba") (lower (s2l "Database administrator")))
    by (exists (s2l "data"), (s2l "se administrator"); reflexivity).
  assert (H2 : substring (s2l "bachelor") (lower (s2l "Bachelor")))
    by (exists [], []; reflexivity).
  refine (conj H1 (conj H2 _)).
  exact (@edu_score_ba_anywhere _ _ H1 H2).
Defined.

(** ** What the experience extraction needs *)

Lemma lang_lit (s : string) (w : str) : lang (Lit s) w -> w = s2l s.
Proof.
  revert w. induction s as [|c s IH]; intros w H.
  - simpl in H. inversion H as [| ? ? ? ? _ L _ | | | | |]; subst.
    specialize (L 0 eq_refl). now destruct w; [|simpl in L; lia].
  - destruct s as [|c' s'].
    + simpl in H. invert_lang H.
      match goal with H : Ascii.eqb _ _ = true |- _ =>
        apply Ascii.eqb_eq in H; subst; reflexivity end.
    + change (lang (Seq (Lit1 c) (Lit (String c' s'))) w) in H.
      invert_lang H.
      match goal with H : lang (Lit1 _) _ |- _ => invert_lang H end.
      match goal with H : Ascii.eqb _ _ = true |- _ =>
        apply Ascii.eqb_eq in H; subst end.
      match goal with H : lang _ _ |- _ => apply IH in H; subst; reflexivity end.
Qed.

Lemma substring_here (sub after : str) : substring sub (sub ++ after).
Proof. now exists [], after. Qed.

Lemma substring_app_r (sub a b : str) : substring sub b -> substring sub (a ++ b).
Proof.
  intros (x & y & ->). exists (a ++ x), y. now rewrite app_assoc.
Qed.

Lemma substring_cons (sub : str) (c : ascii) (b : str) :
  substring sub b -> substring sub (c :: b).
Proof. apply (@substring_app_r sub [c] b). Qed.

Lemma lang_experience (p : regex) (w : str) :
  In p experience_patterns -> lang p w ->
  substring (s2l "year") w /\ 1 <= count is_digit w.
Proof.
  unfold experience_patterns. cbn [In Seqs].
  intros [<- | [<- | [<- | []]]] H;
    repeat match goal with
           | H : lang (Seq _ _) _ |- _ => invert_lang H
           end;
    repeat match goal with
           | H : lang (Lit _) _ |- _ => apply lang_lit in H; subst
           | H : lang (Lit1 _) _ |- _ => invert_lang H
           end;
    repeat match goal with
           | H : Ascii.eqb _ _ = true |- _ => apply Ascii.eqb_eq in H; subst
           end;
    match goal with
    | H : lang (Group _) _ |- _ => invert_lang H
    end;
    match goal with
    | H : lang (Rep is_digit _ _) _ |- _ =>
        let L := fresh "L" in let F := fresh "F" in
        inversion H as [| ? ? ? ? L _ F | | | | |]; subst; clear H;
        apply (count_all is_digit) in F
    end;
    (split;
     [ cbn [app s2l list_ascii_of_string];
       repeat first [ apply (substring_here (s2l "year"))
                    | apply substring_cons
                    | apply substring_app_r ]
     | rewrite !count_app; lia ]).
Qed.

Lemma first_match_lang (r : regex) (s : str) (m : match_obj) :
  first_match r None s m -> lang r (whole m).
Proof.
  intros (n & len & _ & Hm & _). unfold match_at_offset in Hm.
  now apply (@match_at_sound _ _ _ _ _ Hm).
Qed.

Lemma is_digit_lower_char (c : ascii) : is_digit (lower_char c) = is_digit c.
Proof. each_ascii c. Qed.

Lemma count_digit_lower (s : str) :
  count is_digit (lower s) = count is_digit s.
Proof.
  unfold count, lower. induction s as [|c s IH]; [reflexivity|].
  cbn [map filter]. rewrite is_digit_lower_char.
  destruct (is_digit c); simpl; now rewrite IH.
Qed.

Lemma extract_experience_years_zero (text : str) :
  contains (s2l "year") (lower text) = false \/ count is_digit text = 0 ->
  extract_experience_years text = 0%Z.
Proof.
  intros H. unfold extract_experience_years.
  destruct (first_experience_cases experience_patterns (lower text))
    as [(i & p & m & Hi & _ & Hm & _) | [_ E]]; [exfalso | exact E].
  apply nth_error_In in Hi.
  pose proof (@first_match_substring _ _ _ Hm) as Hs.
  destruct (@lang_experience _ _ Hi (@first_match_lang _ _ _ Hm)) as [Hy Hd].
  destruct H as [H | H].
  - assert (C : contains (s2l "year") (lower text) = true).
    { apply contains_substring. now apply substring_trans with (whole m). }
    congruence.
  - pose proof (count_substring is_digit Hs) as Hc.
    rewrite count_digit_lower in Hc. lia.
Qed.

(** X8: years of experience are found only in a text with a digit whose
    lower-cased form has the letters "year". *)
Theorem extract_experience_years_needs (text : str) :
  extract_experience_years text <> 0%Z ->
  substring (s2l "year") (lower text) /\ 1 <= count is_digit text.
Proof.
  intros H. split.
  - apply contains_substring.
    destruct (contains (s2l "year") (lower text)) eqn:E; [reflexivity|].
    exfalso. apply H. apply extract_experience_years_zero. now left.
  - destruct (count is_digit text) as [|n] eqn:E; [|lia].
    exfalso. apply H. apply extract_experience_years_zero. now right.
Qed.

Lemma extract_experience_years_needs_witness :
  extract_experience_years (s2l "Lived 20 Years in Paris") <> 0%Z /\
  substring (s2l "year") (lower (s2l "Lived 20 Years in Paris")) /\
  1 <= count is_digit (s2l "Lived 20 Years in Paris").
Proof.
  assert (H : extract_experience_years (s2l "Lived 20 Years in Paris") <> 0%Z)
    by (vm_compute; discriminate).
  split; [exact H|].
  exact (@extract_experience_years_needs _ H).
Defined.

(** ** The experience score around the requirement *)

Section ExperienceScore.

Open Scope Q_scope.








End ExperienceScore.

(** ** From the text to the skills score *)

Lemma lower_title_keyword (k : str) :
  In k skill_keywords -> lower (title k) = k.
Proof.
  assert (H : forallb (fun k => str_eqb (lower (title k)) k) skill_keywords
              = true) by (vm_compute; reflexivity).
  rewrite forallb_forall in H. intros Hk. now apply str_eqb_eq, H.
Qed.

Lemma extract_skills_mem_lower (text q : str) :
  mem (lower q) (map lower (extract_skills text)) = keyword_in text q.
Proof.
  unfold keyword_in. apply eq_true_iff_eq.
  rewrite andb_true_iff, !mem_In, contains_substring, in_map_iff. split.
  - intros (s & E & Hs). apply extract_skills_In in Hs.
    destruct Hs as (k & Hk & Hsub & ->).
    rewrite (lower_title_keyword Hk) in E. subst k. now split.
  - intros [Hk Hsub]. exists (title (lower q)). split.
    + now apply lower_title_keyword.
    + apply extract_skills_In. now exists (lower q).
Qed.


Lemma no_keyword_no_match (text : str) (qs : list str) :
  Forall (fun r => mem (lower r) skill_keywords = false) qs ->
  filter (fun skill => mem skill (map lower (extract_skills text)))
    (map lower qs) = [].
Proof.
  induction 1 as [|r rs Hr _ IH]; [reflexivity|].
  cbn [map filter]. rewrite extract_skills_mem_lower. unfold keyword_in.
  now rewrite Hr.
Qed.

Section SkillsScore.

Open Scope Q_scope.




(** X14: required skills that are not among the keywords are never matched:
    when none of them is a keyword, the skills score of every text is 0. *)
Theorem skills_score_unknown_skills (text q : str) (qs : list str) :
  Forall (fun r => mem (lower r) skill_keywords = false) (q :: qs) ->
  calculate_skill_match_score (extract_skills text) (q :: qs) == 0.
Proof.
  intros H. unfold calculate_skill_match_score.
  rewrite (no_keyword_no_match text H).
  rewrite (@py_round2_comp _ 0); [reflexivity|].
  change (inject_Z (Z.of_nat (List.length (@nil str)))) with 0.
  unfold Qdiv. now rewrite !Qmult_0_l.
Qed.

Lemma skills_score_unknown_skills_witness :
  Forall (fun r => mem (lower r) skill_keywords = false)
    [s2l "Rust"; s2l "Go"] /\
  calculate_skill_match_score
    (extract_skills (s2l "Rust and Go, ten years")) [s2l "Rust"; s2l "Go"]
  == 0.
Proof.
  assert (H : Forall (fun r => mem (lower r) skill_keywords = false)
                [s2l "Rust"; s2l "Go"])
    by (repeat constructor).
  split; [exact H|].
  exact (@skills_score_unknown_skills _ _ _ H).
Defined.



End SkillsScore.

(** ** From the text to the completeness and the recommendation *)

Section TextToScore.

Open Scope Q_scope.

Lemma completeness_full (cv : cv_data) :
  completeness cv == 100 <->
  truthy (email cv) = true /\ truthy (phone cv) = true /\
  nonempty (skills cv) = true /\ (experience_years cv >? 0)%Z = true.
Proof.
  unfold completeness.
  destruct (truthy (email cv)), (truthy (phone cv)), (nonempty (skills cv)),
    (experience_years cv >? 0)%Z;
    (split; [intros H; try (vm_compute in H; discriminate H); tauto
            | intros (? & ? & ? & ?); try discriminate; reflexivity]).
Qed.

Lemma extract_email_truthy (text : str) :
  truthy (extract_email text) = true <-> exists e, extract_email text = Some e.
Proof.
  destruct (extract_email text) as [e|] eqn:E; simpl.
  - destruct (@extract_email_lang _ _ E) as [_ Hl].
    apply lang_email_form in Hl.
    destruct Hl as (u & d & t & -> & Hu & _).
    destruct u as [|c u]; [congruence|]. simpl.
    split; [intros _; eexists; reflexivity | reflexivity].
  - split; [discriminate | intros [e H]; discriminate].
Qed.

Lemma country_code_nonempty (p : str) : country_code_form p -> p <> [].
Proof.
  intros (plus & ds & sep & -> & _ & [Hd _] & _) E.
  apply (f_equal (@List.length ascii)) in E.
  rewrite !length_app in E. simpl in E. lia.
Qed.

Lemma extract_phone_truthy (text : str) :
  truthy (extract_phone text) = true <->
  exists p, extract_phone text = Some p /\ country_code_form p.
Proof.
  destruct (extract_phone text) as [p|] eqn:E; simpl.
  - destruct (@extract_phone_cases _ _ E) as [-> | F].
    + split; [discriminate|].
      intros (p & [= <-] & F). now apply country_code_nonempty in F.
    + pose proof (country_code_nonempty F).
      destruct p as [|c p]; [congruence|].
      split; [intros _; eexists; split; [reflexivity | exact F] | reflexivity].
  - split; [discriminate | intros (p & H & _); discriminate].
Qed.

(** X19: the completeness of a text is 100 exactly when an email address is
    found, the first phone number has a country code, a keyword of the
    skills occurs and a positive number of years is found. *)
Theorem analyze_text_complete (text : str) (wanted : option (list str))
    (years : Z) (degree : str) :
  completeness (fst (analyze_text text wanted years degree)) == 100 <->
  (exists e, extract_email text = Some e) /\
  (exists p, extract_phone text = Some p /\ country_code_form p) /\
  extract_skills text <> [] /\
  (0 < extract_experience_years text)%Z.
Proof.
  unfold analyze_text; cbn [fst].
  rewrite completeness_full; cbn [email phone skills experience_years].
  rewrite extract_email_truthy, extract_phone_truthy, Z.gtb_lt.
  assert (N : nonempty (extract_skills text) = true <-> extract_skills text <> []).
  { destruct (extract_skills text); simpl; split; congruence. }
  rewrite N. reflexivity.
Qed.




End TextToScore.

(** ** What the endpoints raise and report *)

Section EndpointErrors.

Variable pdf_pages_text : list ascii -> str + str.
Variable decode_utf8_ignore : list ascii -> str.
Variable exception_text : http_exception -> str.
Variable required_skills : option (list str).
Variable min_experience_years : Z.
Variable required_education : str.

Let analyze (file : upload_file) : outcome analysis :=
  analyze_cv pdf_pages_text decode_utf8_ignore file required_skills
             min_experience_years required_education.

Let batch (files : list upload_file) : batch_result :=
  batch_analyze_cvs pdf_pages_text decode_utf8_ignore exception_text files
                    required_skills min_experience_years required_education.

Lemma analyze_cv_filename (file : upload_file) (a : analysis) :
  analyze file = Return a -> analysis_filename a = filename file.
Proof.
  unfold analyze, analyze_cv.
  destruct (if endswith _ _ then _ else _) as [text | e]; [|discriminate].
  destruct (analyze_text _ _ _ _). now intros [= <-].
Qed.


(** X23: the ending of the name is compared as it is written: with one of the
    four endings in upper case the format is unsupported. *)
Theorem analyze_cv_upper_case_ending (base ending : str)
    (file_content : list ascii) :
  In ending (map s2l [".pdf"; ".txt"; ".doc"; ".docx"]%string) ->
  analyze (UploadFile (base ++ upper ending) file_content)
  = Raise unsupported_format.
Proof.
  unfold analyze, analyze_cv, endswith. cbn [filename map existsb].
  intros [<- | [<- | [<- | [<- | []]]]];
    rewrite rev_app_distr; reflexivity.
Qed.

Lemma batch_filenames_results (files : list upload_file) :
  let results :=
    batch_results pdf_pages_text decode_utf8_ignore exception_text files
      required_skills min_experience_years required_education in
  Permutation
    (map analysis_filename (valid_results results)
     ++ map entry_filename (filter has_error results))
    (map filename files).
Proof.
  induction files as [|file files IH]; [constructor|].
  cbn [batch_results map] in *.
  fold (analyze file).
  destruct (analyze file) as [a | e] eqn:E.
  - cbn [valid_results filter has_error map app].
    rewrite (analyze_cv_filename _ E). now constructor.
  - cbn [valid_results filter has_error map entry_filename].
    apply Permutation_sym, Permutation_cons_app. now symmetry.
Qed.

(** X24: every file of a batch is reported once under its name, among the
    ranked candidates or among the errors. *)
Theorem batch_analyze_cvs_filenames (files : list upload_file) :
  Permutation
    (map analysis_filename (ranked_candidates (batch files))
     ++ map entry_filename (errors (batch files)))
    (map filename files).
Proof.
  unfold batch, batch_analyze_cvs.
  cbn [ranked_candidates errors].
  rewrite <- (batch_filenames_results files).
  apply Permutation_app_tail, Permutation_map, sort_desc_perm.
Qed.

End EndpointErrors.


Lemma analyze_cv_upper_case_ending_witness :
  In (s2l ".pdf") (map s2l [".pdf"; ".txt"; ".doc"; ".docx"]%string) /\
  analyze_cv (fun _ => inl []) (fun b => b)
    (UploadFile (s2l "resume" ++ upper (s2l ".pdf")) (s2l "text")) None 0
    (s2l "bachelor")
  = Raise unsupported_format.
Proof.
  assert (H : In (s2l ".pdf") (map s2l [".pdf"; ".txt"; ".doc"; ".docx"]%string))
    by (left; reflexivity).
  split; [exact H|].
  exact (@analyze_cv_upper_case_ending (fun _ => inl []) (fun b => b) None 0%Z
           (s2l "bachelor") (s2l "resume") (s2l ".pdf") (s2l "text") H).
Defined.

(** The scores of the example do not change when the skills come in
    another order. *)
Lemma calculate_overall_score_skill_order_witness :
  Permutation (skills example_cv) (rev (skills example_cv)) /\
  calculate_overall_score example_cv example_job
  = calculate_overall_score
      (CvData (email example_cv) (phone example_cv)
              (rev (skills example_cv)) (experience_years example_cv)
              (education example_cv)) example_job.
Proof.
  assert (H : Permutation (skills example_cv) (rev (skills example_cv)))
    by apply Permutation_rev.
  split; [exact H|].
  exact (@calculate_overall_score_skill_order example_cv example_job _ H).
Defined.

(** ** The greedy repetition, and the addresses that are found *)

Lemma taken_fields (w s' : str) :
  forall k,
  pos (taken w s' k) = pos k + List.length w /\
  rest (taken w s' k) = s' /\
  span (taken w s' k) = span k.
Proof.
  induction w as [|c w IH]; intros k; simpl.
  - repeat split. lia.
  - destruct (IH (advance c (w ++ s') k)) as (-> & -> & ->). simpl.
    repeat split. lia.
Qed.


Lemma rep_none (A : Type) (p : ascii -> bool) (cont : cursor -> option A)
    (w s' : str) :
  forall lo k,
  Forall (fun c => p c = true) w -> stops p s' = true ->
  (forall n, lo <= n <= List.length w ->
             cont (taken (firstn n w) (skipn n w ++ s') k) = None) ->
  rep p lo None (w ++ s') k cont = None.
Proof.
  induction w as [|c w IH]; intros lo k F Hs H.
  - assert (E : match lo with
                | 0 => cont (Cursor (prev k) (pos k) s' (span k))
                | S _ => None
                end = None).
    { destruct lo; [|reflexivity]. apply (H 0). simpl. lia. }
    destruct s' as [|c s'']; cbn [app rep]; [exact E|].
    simpl in Hs. apply negb_true_iff in Hs. rewrite Hs. exact E.
  - inversion F as [|? ? Hc F']; subst.
    cbn [app rep]. rewrite Hc. cbn [andb more_allowed dec_hi].
    rewrite IH; [| assumption | assumption |].
    + destruct lo; [|reflexivity]. apply (H 0). simpl. lia.
    + intros n Hn. specialize (H (S n)). cbn [firstn skipn taken] in H.
      rewrite app_assoc, firstn_skipn in H. apply H. simpl. lia.
Qed.

Lemma rep_take (A : Type) (p : ascii -> bool) (cont : cursor -> option A)
    (a : A) (w s' : str) :
  forall lo k n,
  Forall (fun c => p c = true) w -> stops p s' = true ->
  lo <= n <= List.length w ->
  cont (taken (firstn n w) (skipn n w ++ s') k) = Some a ->
  (forall m, n < m <= List.length w ->
             cont (taken (firstn m w) (skipn m w ++ s') k) = None) ->
  rep p lo None (w ++ s') k cont = Some a.
Proof.
  induction w as [|c w IH]; intros lo k n F Hs Hn Ha H.
  - simpl in Hn. assert (n = 0) by lia. assert (lo = 0) by lia. subst.
    simpl in Ha.
    destruct s' as [|c s'']; cbn [app rep]; [exact Ha|].
    simpl in Hs. apply negb_true_iff in Hs. now rewrite Hs.
  - inversion F as [|? ? Hc F']; subst.
    cbn [app rep]. rewrite Hc. cbn [andb more_allowed dec_hi].
    destruct n as [|n].
    + assert (lo = 0) by lia. subst.
      rewrite rep_none; [exact Ha | assumption | assumption |].
      intros m Hm. specialize (H (S m)). cbn [firstn skipn taken] in H.
      rewrite app_assoc, firstn_skipn in H. apply H. simpl. lia.
    + rewrite (IH (Nat.pred lo) (advance c (w ++ s') k) n);
        [reflexivity | assumption | assumption | simpl in Hn; lia | |].
      * cbn [firstn skipn taken] in Ha.
        now rewrite app_assoc, firstn_skipn in Ha.
      * intros m Hm. specialize (H (S m)). cbn [firstn skipn taken] in H.
        rewrite app_assoc, firstn_skipn in H. apply H. simpl. lia.
Qed.

Ltac each_char c :=
  destruct c as [[] [] [] [] [] [] [] []]; vm_compute; intros;
  repeat split; congruence.












(** ** The phrase of the first experience pattern *)

Lemma rep_complete (A : Type) (p : ascii -> bool) (cont : cursor -> option A)
    (w s' : str) :
  forall lo hi k,
  Forall (fun c => p c = true) w ->
  lo <= List.length w -> (forall h, hi = Some h -> List.length w <= h) ->
  (forall k', rest k' = s' -> cont k' <> None) ->
  rep p lo hi (w ++ s') k cont <> None.
Proof.
  induction w as [|c w IH]; intros lo hi k F Hlo Hhi Hc.
  - simpl in Hlo. assert (lo = 0) by lia. subst lo.
    destruct s' as [|c s'']; cbn [app rep]; [now apply Hc|].
    destruct (p c && more_allowed hi); [|now apply Hc].
    destruct (rep _ _ _ _ _ _); [discriminate | now apply Hc].
  - inversion F as [|? ? Hpc F']; subst.
    cbn [app rep]. rewrite Hpc.
    assert (Hm : more_allowed hi = true).
    { destruct hi as [[|h]|]; try reflexivity.
      specialize (Hhi 0 eq_refl). simpl in Hhi. lia. }
    rewrite Hm. cbn [andb].
    destruct (rep p (Nat.pred lo) (dec_hi hi) (w ++ s') (advance c (w ++ s') k)
                cont) eqn:E; [discriminate|].
    exfalso. revert E. apply IH; [assumption | simpl in Hlo; lia | | assumption].
    intros h Hh. destruct hi as [h0|]; [|discriminate].
    injection Hh as <-. specialize (Hhi h0 eq_refl). simpl in Hhi. lia.
Qed.

Lemma run_complete (A : Type) (r : regex) :
  forall (w s' : str) (k : cursor) (cont : cursor -> option A),
  no_wordb r = true -> lang r w -> rest k = w ++ s' ->
  (forall k', rest k' = s' -> cont k' <> None) ->
  run r k cont <> None.
Proof.
  induction r as [p | p lo hi | r1 IH1 r2 IH2 | r1 IH1 | r1 IH1 |];
    intros w s' k cont Hn Hl Hr Hc; cbn [run]; simpl in Hn.
  - invert_lang Hl. rewrite Hr. cbn [app].
    match goal with H : p _ = true |- _ => rewrite H end.
    now apply Hc.
  - invert_lang Hl. rewrite Hr. now apply rep_complete.
  - invert_lang Hl. apply andb_true_iff in Hn. destruct Hn as [Hn1 Hn2].
    match goal with
    | H1 : lang r1 ?w1, H2 : lang r2 ?w2 |- _ =>
        apply (IH1 w1 (w2 ++ s')); [assumption | assumption | |]
    end.
    + now rewrite Hr, app_assoc.
    + intros k1 Hk1.
      match goal with
      | H2 : lang r2 ?w2 |- _ => now apply (IH2 w2 s')
      end.
  - destruct (run r1 k cont) eqn:E; [discriminate|].
    invert_lang Hl; [now apply Hc|].
    exfalso. revert E.
    match goal with H : lang r1 ?w |- _ => now apply (IH1 w s') end.
  - invert_lang Hl.
    match goal with H : lang r1 ?w |- _ => apply (IH1 w s') end;
      try assumption.
    intros k1 Hk1. now apply Hc.
  - discriminate.
Qed.

Lemma experience_patterns_head :
  experience_patterns
  = Seq (Group (Rep is_digit 1 None)) experience_phrase
    :: tl experience_patterns.
Proof. reflexivity. Qed.

Lemma is_space_not_digit (c : ascii) : is_space c = true -> is_digit c = false.
Proof. each_char c. Qed.

Lemma is_digit_lower (c : ascii) : is_digit c = true -> lower_char c = c.
Proof. each_char c. Qed.

Lemma lower_digits (ds : str) :
  Forall (fun c => is_digit c = true) ds -> lower ds = ds.
Proof.
  induction 1 as [|c ds Hc _ IH]; [reflexivity|].
  unfold lower in *. cbn [map]. now rewrite IH, (is_digit_lower _ Hc).
Qed.

Lemma experience_phrase_head (ph x : str) :
  lang experience_phrase ph -> stops is_digit (ph ++ x) = true.
Proof.
  unfold experience_phrase. cbn [Seqs]. intros H.
  invert_lang H.
  match goal with H : lang (Seq _ _) _ |- _ => invert_lang H end.
  match goal with H : lang (Seq _ _) _ |- _ => invert_lang H end.
  match goal with
  | H : lang _ _ |- _ => apply (@lang_lit "year") in H; subst
  end.
  match goal with H : lang (Rep is_space _ _) _ |- _ => invert_lang H end.
  match goal with H : lang (Opt (Lit1 _)) _ |- _ => invert_lang H end.
  - match goal with
    | F : Forall _ ?w |- context [[] ++ ?w ++ _] =>
        destruct F as [|c w Hc _]; [reflexivity|]
    end.
    simpl. now rewrite (is_space_not_digit _ Hc).
  - match goal with H : lang (Lit1 _) _ |- _ => invert_lang H end.
    match goal with H : Ascii.eqb _ _ = true |- _ =>
      apply Ascii.eqb_eq in H; subst end.
    reflexivity.
Qed.

Lemma no_digit_before (r : regex) (pre s : str) (n : nat) :
  count is_digit pre = 0 -> n < List.length pre ->
  match_at_offset (Seq (Group (Rep is_digit 1 None)) r) None (pre ++ s) n
  = None.
Proof.
  intros Hd Hn.
  destruct (match_at_offset _ None (pre ++ s) n) as [[len m]|] eqn:E;
    [exfalso | reflexivity].
  unfold match_at_offset in E.
  destruct (@match_at_sound _ _ _ _ _ E) as (Hl & (after & Ha) & _).
  invert_lang Hl.
  match goal with H : lang (Group _) _ |- _ => invert_lang H end.
  match goal with H : lang (Rep _ _ _) _ |- _ => invert_lang H end.
  match goal with H : _ = whole m |- _ => rewrite <- H in Ha end.
  rewrite skipn_app in Ha.
  replace (n - List.length pre) with 0 in Ha by lia. cbn [skipn] in Ha.
  assert (Hc : count is_digit (skipn n pre) = 0).
  { assert (H : count is_digit (firstn n pre ++ skipn n pre) = 0)
      by now rewrite firstn_skipn.
    rewrite count_app in H. lia. }
  assert (Hp : skipn n pre <> []).
  { intros E'. apply (f_equal (@List.length ascii)) in E'.
    rewrite length_skipn in E'. simpl in E'. lia. }
  destruct (skipn n pre) as [|c p2]; [congruence|].
  match goal with
  | F : Forall _ ?w, L : 1 <= List.length ?w |- _ =>
      destruct F as [|c' w' Hc' _]; [simpl in L; lia|]
  end.
  rewrite <- !app_assoc in Ha. cbn [app] in Ha. injection Ha as -> _.
  unfold count in Hc. cbn [filter] in Hc. rewrite Hc' in Hc.
  simpl in Hc. lia.
Qed.

Lemma match_at_digits_phrase (before : option ascii) (ds ph post : str) :
  ds <> [] -> Forall (fun c => is_digit c = true) ds ->
  lang experience_phrase ph ->
  exists len m,
    match_at (Seq (Group (Rep is_digit 1 None)) experience_phrase) before
      (ds ++ ph ++ post) = Some (len, m) /\
    group1 m = Some ds.
Proof.
  intros Hds Fds Hph.
  set (s := ds ++ ph ++ post).
  set (k0 := Cursor before 0 s None).
  set (cont0 := fun k : cursor => Some (pos k, span k)).
  set (k1 := taken ds (ph ++ post) k0).
  destruct (taken_fields ds (ph ++ post) k0) as (P1 & R1 & S1).
  fold k1 in P1, R1, S1. cbn [pos k0] in P1.
  set (k2 := Cursor (prev k1) (pos k1) (rest k1) (Some (pos k0, pos k1))).
  destruct (run experience_phrase k2 cont0) as [a|] eqn:E.
  - destruct (@run_sound s _ experience_phrase cont0 a k2) as
      (w & k' & _ & _ & _ & Hspan & Hc); [|exact E|].
    { cbn [rest pos k2]. rewrite R1, P1. unfold s. simpl.
      now rewrite skipn_app_length. }
    destruct Hspan as [Hspan | (body & b & e & [] & _)].
    unfold cont0 in Hc. injection Hc as <-.
    exists (pos k'), (snd (match_of_span s (pos k', span k'))).
    split.
    + unfold match_at, match_span. fold k0. cbn [run].
      rewrite (@rep_take _ is_digit _ (pos k', span k') ds (ph ++ post) 1 k0
                 (List.length ds)); [reflexivity | assumption | | | |].
      * now apply experience_phrase_head.
      * destruct ds; [congruence | simpl; lia].
      * rewrite firstn_all, skipn_all. cbn [app]. fold k1. fold k2.
        exact E.
      * intros m Hm. lia.
    + unfold match_of_span. cbn [fst snd group1].
      rewrite Hspan. cbn [span k2 pos k0]. rewrite P1. f_equal.
      unfold slice, s. simpl. rewrite Nat.sub_0_r. apply firstn_app_length.
  - exfalso. revert E.
    apply (@run_complete _ experience_phrase ph post);
      [reflexivity | assumption | exact R1 | discriminate].
Qed.

(** X9: a number that is followed by a phrase of the first experience pattern,
    as in ["8+ years of experience"], gives the years of experience when no
    digit comes before it in the text. *)
Theorem extract_experience_years_phrase (pre ds phrase post : str) :
  count is_digit pre = 0 ->
  ds <> [] -> Forall (fun c => is_digit c = true) ds ->
  lang experience_phrase (lower phrase) ->
  extract_experience_years (pre ++ ds ++ phrase ++ post) = int_of_digits ds.
Proof.
  intros Hpre Hds Fds Hph.
  unfold extract_experience_years, lower.
  rewrite !map_app. fold (lower pre) (lower ds) (lower phrase) (lower post).
  rewrite (lower_digits Fds).
  rewrite experience_patterns_head. cbn [first_experience].
  pose proof (findall1_first
                (Seq (Group (Rep is_digit 1 None)) experience_phrase)
                (lower pre ++ ds ++ lower phrase ++ lower post)) as H.
  rewrite search_skip in H.
  - rewrite search_unfold in H.
    destruct (@match_at_digits_phrase
                (before_offset None
                   (lower pre ++ ds ++ lower phrase ++ lower post)
                   (List.length (lower pre)))
                ds (lower phrase) (lower post) Hds Fds Hph)
      as (len & m & Hm & Hg).
    rewrite Hm in H. cbn [option_map] in H.
    unfold group_text in H. rewrite Hg in H.
    destruct (findall1 _ _) as [|g rest']; [discriminate|].
    now injection H as ->.
  - intros n Hn. apply no_digit_before; [|assumption].
    now rewrite count_digit_lower.
Qed.

Lemma lang_literal (s : string) : lang (Lit s) (s2l s).
Proof.
  induction s as [|c s IH].
  - simpl. apply lang_rep; [simpl; lia | intros h [= <-]; simpl; lia
                          | constructor].
  - destruct s as [|c' s'].
    + simpl. apply lang_chr. apply Ascii.eqb_refl.
    + change (lang (Seq (Lit1 c) (Lit (String c' s')))
                ([c] ++ s2l (String c' s'))).
      apply lang_seq; [|exact IH]. apply lang_chr. apply Ascii.eqb_refl.
Qed.

Lemma extract_experience_years_phrase_witness :
  count is_digit (s2l "Engineer with ") = 0 /\
  s2l "12" <> [] /\
  Forall (fun c => is_digit c = true) (s2l "12") /\
  lang experience_phrase (lower (s2l "+ Years of Experience")) /\
  extract_experience_years
    (s2l "Engineer with " ++ s2l "12" ++ s2l "+ Years of Experience"
     ++ s2l " in Python")
  = int_of_digits (s2l "12").
Proof.
  assert (H1 : count is_digit (s2l "Engineer with ") = 0) by reflexivity.
  assert (H2 : s2l "12" <> []) by discriminate.
  assert (H3 : Forall (fun c => is_digit c = true) (s2l "12"))
    by (repeat constructor).
  assert (H4 : lang experience_phrase (lower (s2l "+ Years of Experience"))).
  { unfold experience_phrase. cbn [Seqs].
    apply (@lang_seq _ _ (s2l "+") (s2l " years of experience"));
      [apply lang_opt_some; now apply lang_chr|].
    apply (@lang_seq _ _ (s2l " ") (s2l "years of experience"));
      [apply lang_rep; [simpl; lia | discriminate | repeat constructor]|].
    apply (@lang_seq _ _ (s2l "year") (s2l "s of experience"));
      [apply lang_literal|].
    apply (@lang_seq _ _ (s2l "s") (s2l " of experience"));
      [apply lang_opt_some; now apply lang_chr|].
    apply (@lang_seq _ _ (s2l " ") (s2l "of experience"));
      [apply lang_rep; [simpl; lia | discriminate | repeat constructor]|].
    apply (@lang_seq _ _ (s2l "of ") (s2l "experience"));
      [|apply lang_literal].
    apply lang_opt_some.
    apply (@lang_seq _ _ (s2l "of") (s2l " ")); [apply lang_literal|].
    apply lang_rep; [simpl; lia | discriminate | repeat constructor]. }
  refine (conj H1 (conj H2 (conj H3 (conj H4 _)))).
  exact (@extract_experience_years_phrase _ _ _ _ H1 H2 H3 H4).
Defined.
